(** * MediVault retrieval core: chunker, vector store and RAG orchestration

    A shallow embedding of
      backend/app/services/text_chunker.py
      backend/app/services/vector_store.py
      backend/app/services/rag_service.py
      backend/app/services/document_reader.py
      backend/app/services/embedding_service.py
      backend/app/main.py (the service behind the endpoints)
      backend/app/config.py (the properties file)
    together with the properties of the design document that concern them.

    Conventions of the embedding.
    - A Python [str] is a list of Unicode code points ([N]); [len] counts
      code points, as Python does.
    - Python integers are [Z]; indices into strings follow Python's slice
      rules, negative positions included.
    - A chunk dictionary is a [gmap string pyval]; its keys are written as
      Rocq strings.
    - Exceptions are values of [exn]; a call that may raise returns an
      [outcome].
    - float32 components of embedding vectors are idealised as rationals. *)

From Stdlib Require Import ZArith QArith List String Ascii DecimalString Lia.
From stdpp Require Import gmap strings list sorting.

Open Scope Z_scope.

(** ** Python values and built-ins *)
Module Py.

Definition char := N.
Definition str := list char.

Definition pystr_of (s : string) : str :=
  List.map N_of_ascii (list_ascii_of_string s).

Definition len {A} (l : list A) : Z := Z.of_nat (length l).

(** [c.isspace()] for one character. *)
Definition isspace (c : char) : bool :=
  let c := Z.of_N c in
  ((9 <=? c) && (c <=? 13)) || ((28 <=? c) && (c <=? 32)) ||
  (c =? 133) || (c =? 160) || (c =? 5760) ||
  ((8192 <=? c) && (c <=? 8202)) || (c =? 8232) || (c =? 8233) ||
  (c =? 8239) || (c =? 8287) || (c =? 12288).

Fixpoint lstrip_with (p : char -> bool) (s : str) : str :=
  match s with
  | c :: s' => if p c then lstrip_with p s' else s
  | [] => []
  end.

Definition rstrip_with (p : char -> bool) (s : str) : str :=
  rev (lstrip_with p (rev s)).

(** [s.strip()] *)
Definition strip (s : str) : str := rstrip_with isspace (lstrip_with isspace s).

Definition char_in (chars : str) (c : char) : bool :=
  existsb (N.eqb c) chars.

(** [s.lstrip(chars)] *)
Definition lstrip_chars (chars : str) (s : str) : str :=
  lstrip_with (char_in chars) s.

(** Python's treatment of one slice bound on a sequence of length [n]. *)
Definition clamp (n i : Z) : Z :=
  if i <? 0 then Z.max (i + n) 0 else Z.min i n.

(** [s[a:b]] *)
Definition slice {A} (s : list A) (a b : Z) : list A :=
  let a' := clamp (len s) a in
  let b' := clamp (len s) b in
  take (Z.to_nat (b' - a')) (drop (Z.to_nat a') s).

Definition str_eqb (a b : str) : bool := bool_decide (a = b).

(** [s[i : i + len(sub)] == sub] for an index [i] inside [s]. *)
Definition occurs_at (s sub : str) (i : nat) : bool :=
  str_eqb (take (length sub) (drop i s)) sub.

(** Highest index among [lo, lo+1, ..., lo+n-1] where [sub] occurs, else -1. *)
Fixpoint rfind_down (s sub : str) (lo n : nat) : Z :=
  match n with
  | O => -1
  | S n' =>
      if occurs_at s sub (lo + n') then Z.of_nat (lo + n')
      else rfind_down s sub lo n'
  end.

(** [s.rfind(sub, start)] *)
Definition rfind (s sub : str) (start : Z) : Z :=
  let lo := if start <? 0 then Z.max (start + len s) 0 else start in
  if len s - lo <? len sub then -1
  else rfind_down s sub (Z.to_nat lo) (Z.to_nat (len s - len sub - lo + 1)).

(** [sub in s] *)
Definition contains (sub s : str) : bool :=
  existsb (occurs_at s sub) (seq 0 (S (length s - length sub)))
  && (length sub <=? length s)%nat.

Definition startswith (s pre : str) : bool :=
  str_eqb (take (length pre) s) pre.

(** [s.split('\n')] *)
Fixpoint split_lines (s : str) : list str :=
  match s with
  | [] => [[]]
  | c :: s' =>
      if N.eqb c 10 then [] :: split_lines s'
      else match split_lines s' with
           | l :: ls => (c :: l) :: ls
           | [] => [[c]]
           end
  end.

(** [sep.join(parts)] *)
Fixpoint join (sep : str) (parts : list str) : str :=
  match parts with
  | [] => []
  | [p] => p
  | p :: ps => p ++ sep ++ join sep ps
  end.

Inductive pyfloat :=
| Finite (q : Q)
| Inf (negative : bool)
| NaN.

#[warnings="-register-all"]
Inductive pyval :=
| PNone
| PBool (b : bool)
| PInt (z : Z)
| PFloat (f : pyfloat)
| PStr (s : str)
| PList (l : list pyval)
| PDict (d : list (pyval * pyval)).

(** [isinstance(v, (str, int, float, bool))] *)
Definition is_scalar (v : pyval) : bool :=
  match v with
  | PStr _ | PInt _ | PFloat _ | PBool _ => true
  | PNone | PList _ | PDict _ => false
  end.

(** [bool(v)] *)
Definition truthy (v : pyval) : bool :=
  match v with
  | PNone => false
  | PBool b => b
  | PInt z => negb (z =? 0)
  | PFloat (Finite q) => negb (Qeq_bool q 0)
  | PFloat _ => true
  | PStr s => negb (str_eqb s [])
  | PList l => match l with [] => false | _ => true end
  | PDict d => match d with [] => false | _ => true end
  end.

(** [a or b] *)
Definition py_or (a b : pyval) : pyval := if truthy a then a else b.

Inductive exn :=
| ValueError_count_mismatch (chunks embeddings : nat)
| ValueError_dimension_mismatch (expected got : nat)
| ValueError_query_dimension_mismatch (expected got : nat)
| ValueError_inhomogeneous_shape
| ValueError_int (v : pyval)
| TypeError_int (v : pyval)
| OverflowError_int
| KeyError (key : string)
| AssertionError
| Exception_ (message : str).

(** The parts of the Python runtime that the services call and whose
    tables are not reproduced here. *)
Class Runtime := {
  repr : pyval -> str;          (* str(v) for a v that is not a str *)
  parse_int : str -> option Z;  (* int(s) for a str s; None when it raises ValueError *)
  isdigit : char -> bool;       (* c.isdigit() *)
  lower : str -> str;           (* s.lower() *)
  str_of_exn : exn -> str       (* str(e) *)
}.

Inductive outcome (A : Type) :=
| Ok (a : A)
| Raise (e : exn)
| OutOfFuel.
Arguments Ok {A} a.
Arguments Raise {A} e.
Arguments OutOfFuel {A}.

Definition bind_outcome {A B} (x : outcome A) (f : A -> outcome B) : outcome B :=
  match x with
  | Ok a => f a
  | Raise e => Raise e
  | OutOfFuel => OutOfFuel
  end.

(** The result of a call to a collaborator: a value or an exception. *)
Inductive called (A : Type) :=
| Returned (a : A)
| Raised (e : exn).
Arguments Returned {A} a.
Arguments Raised {A} e.

Definition of_call {A} (x : called A) : outcome A :=
  match x with
  | Returned a => Ok a
  | Raised e => Raise e
  end.

(** [str(v)] *)
Definition py_str `{Runtime} (v : pyval) : str :=
  match v with
  | PStr s => s
  | _ => repr v
  end.

(** [int(v)] *)
Definition py_int `{Runtime} (v : pyval) : outcome Z :=
  match v with
  | PInt z => Ok z
  | PBool b => Ok (if b then 1 else 0)
  | PFloat (Finite q) => Ok (Z.quot (Qnum q) (Z.pos (Qden q)))
  | PFloat (Inf _) => Raise OverflowError_int
  | PFloat NaN => Raise (ValueError_int v)
  | PStr s => match parse_int s with
              | Some z => Ok z
              | None => Raise (ValueError_int v)
              end
  | PNone | PList _ | PDict _ => Raise (TypeError_int v)
  end.

End Py.
Export Py.

(** ** app/config.py: the values the core reads *)
Record config := {
  CHUNK_SIZE : Z;
  CHUNK_OVERLAP : Z;
  TOP_K_CHUNKS : Z
}.

(** The defaults of [Config._load_config]. *)
Definition default_config : config :=
  {| CHUNK_SIZE := 500; CHUNK_OVERLAP := 50; TOP_K_CHUNKS := 3 |}.

(** ** services/text_chunker.py *)
Module TextChunker.

(** [int(self.chunk_size * 0.8)]: the double product truncated towards
    zero, which for every chunk size below 2^50 in magnitude is the integer
    quotient of [4 * chunk_size] by 5. *)
Definition int_08 (chunk_size : Z) : Z := Z.quot (4 * chunk_size) 5.

(** ['\n\n', '\n', '. ', ' ', ''] *)
Definition boundary_chars : list str :=
  [[10; 10]; [10]; [46; 32]; [32]; []]%N.

(** The [for boundary in boundary_chars] loop: the offset, relative to
    [start], of the new end of the window, when some boundary is found. *)
Fixpoint cut_at_boundary (chunk_text : str) (from : Z) (boundaries : list str)
  : option Z :=
  match boundaries with
  | [] => None
  | boundary :: rest =>
      match boundary with
      | [] => cut_at_boundary chunk_text from rest
      | _ =>
          let last_boundary := rfind chunk_text boundary from in
          if last_boundary =? -1 then cut_at_boundary chunk_text from rest
          else Some (last_boundary + len boundary)
      end
  end.

(** Lines 56-73: the end of the window that starts at [start], and its text. *)
Definition window (c : config) (text : str) (start : Z) : Z * str :=
  let end_ := start + CHUNK_SIZE c in
  let chunk_text := slice text start end_ in
  if end_ <? len text then
    let boundary_search_start := Z.max (start + int_08 (CHUNK_SIZE c)) start in
    match cut_at_boundary chunk_text (boundary_search_start - start) boundary_chars with
    | Some off => (start + off, slice text start (start + off))
    | None => (end_, chunk_text)
    end
  else (end_, chunk_text).

(** [chunk_data.update(metadata)] guarded by [if metadata:]. *)
Definition update_with (metadata : option (gmap string pyval))
    (chunk_data : gmap string pyval) : gmap string pyval :=
  match metadata with
  | Some md => if bool_decide (md = ∅) then chunk_data else md ∪ chunk_data
  | None => chunk_data
  end.

(** Lines 76-86. *)
Definition chunk_data_of (chunk_text : str) (chunk_index : Z)
    (source_file : pyval) (start end_ : Z)
    (metadata : option (gmap string pyval)) : gmap string pyval :=
  update_with metadata
    (<["end_char" := PInt end_]>
     (<["start_char" := PInt start]>
      (<["source_file" := py_or source_file (PStr (pystr_of "unknown"))]>
       (<["chunk_index" := PInt chunk_index]>
        {["text" := PStr (strip chunk_text)]})))).

(** The [while start < len(text)] loop; one unit of fuel per evaluation of
    the loop condition. [None]: the fuel ran out before the loop ended. *)
Fixpoint chunk_loop (fuel : nat) (c : config) (text : str) (source_file : pyval)
    (metadata : option (gmap string pyval))
    (start chunk_index : Z) (chunks : list (gmap string pyval))
  : option (list (gmap string pyval)) :=
  match fuel with
  | O => None
  | S fuel' =>
      if start <? len text then
        let '(end_, chunk_text) := window c text start in
        let chunk_data :=
          chunk_data_of chunk_text chunk_index source_file start end_ metadata in
        let chunks := chunks ++ [chunk_data] in
        let start := end_ - CHUNK_OVERLAP c in
        let chunk_index := chunk_index + 1 in
        if len text <=? start then Some chunks
        else chunk_loop fuel' c text source_file metadata start chunk_index chunks
      else Some chunks
  end.

(** [TextChunker.chunk_text] *)
Definition chunk_text (fuel : nat) (c : config) (text : str)
    (source_file : pyval) (metadata : option (gmap string pyval))
  : option (list (gmap string pyval)) :=
  if str_eqb text [] || str_eqb (strip text) [] then Some []
  else
    let text := strip text in
    if len text <=? CHUNK_SIZE c then
      Some [update_with metadata
              (<["total_chunks" := PInt 1]>
               (<["source_file" := py_or source_file (PStr (pystr_of "unknown"))]>
                (<["chunk_index" := PInt 0]>
                 {["text" := PStr text]})))]
    else
      match chunk_loop fuel c text source_file metadata 0 0 [] with
      | Some chunks =>
          Some (List.map (fun chunk => <["total_chunks" := PInt (len chunks)]> chunk) chunks)
      | None => None
      end.

(** A document record as [DocumentReader.get_records_with_metadata] builds it. *)
Record document := {
  doc_name : str;
  doc_content : str;
  doc_metadata : gmap string pyval
}.

(** [TextChunker.chunk_documents] *)
Fixpoint chunk_documents (fuel : nat) (c : config) (documents : list document)
  : option (list (gmap string pyval)) :=
  match documents with
  | [] => Some []
  | doc :: rest =>
      let metadata := <["document_name" := PStr (doc_name doc)]> (doc_metadata doc) in
      match chunk_text fuel c (doc_content doc) (PStr (doc_name doc)) (Some metadata) with
      | Some chunks =>
          match chunk_documents fuel c rest with
          | Some more => Some (chunks ++ more)
          | None => None
          end
      | None => None
      end
  end.

End TextChunker.

(** ** services/vector_store.py *)
Module VectorStore.

Definition vec := list Q.

(** [self.embedding_dim = 384] *)
Definition embedding_dim : nat := 384.

(** The dictionary built at lines 85-98, with the types its coercions give:
    [text] is stored as it comes, [source_file] goes through [str],
    [chunk_index] and [total_chunks] through [int]; [extra] holds the keys
    added by the loop over [chunk.items()]. *)
Record metadata_entry := {
  text : pyval;
  source_file : str;
  chunk_index : Z;
  total_chunks : Z;
  extra : gmap string pyval
}.

(** The two companion files [medical_records.faiss] and
    [medical_records_metadata.pkl]. *)
Inductive disk :=
| NoFiles
| Unreadable
| Saved (rows : list vec) (records : list metadata_entry).

(** [index] holds the rows of the [IndexFlatL2]; [index.ntotal] is its
    length. *)
Record store := {
  index : list vec;
  metadata : list metadata_entry;
  files : disk
}.

Definition ntotal (st : store) : nat := length (index st).

(** [VectorStore._create_new_index] *)
Definition _create_new_index (st : store) : store :=
  {| index := []; metadata := []; files := files st |}.

(** [VectorStore.__init__] with [VectorStore._load_index]: files that exist
    and load give the saved state; anything else gives a new index. *)
Definition _load_index (d : disk) : store :=
  match d with
  | Saved rows records => {| index := rows; metadata := records; files := d |}
  | NoFiles | Unreadable =>
      _create_new_index {| index := []; metadata := []; files := d |}
  end.

(** [VectorStore._save_index], when both writes succeed. *)
Definition _save_index (st : store) : store :=
  {| index := index st; metadata := metadata st;
     files := Saved (index st) (metadata st) |}.

(** [np.array(embeddings, dtype='float32').shape[1]] for a non-empty list
    of rows: rows of different lengths make [np.array] raise. *)
Definition array_width (embeddings : list vec) : outcome nat :=
  match embeddings with
  | [] => Ok O
  | row :: rest =>
      if forallb (fun r => Nat.eqb (length r) (length row)) rest
      then Ok (length row)
      else Raise ValueError_inhomogeneous_shape
  end.

Definition fixed_keys : list string :=
  ["text"; "source_file"; "chunk_index"; "total_chunks"]%string.

(** Lines 95-98. *)
Definition coerce_extra `{Runtime} (value : pyval) : pyval :=
  if is_scalar value then value else PStr (py_str value).

(** Lines 85-98 for one chunk. *)
Definition metadata_entry_of `{Runtime} (chunk : gmap string pyval)
  : outcome metadata_entry :=
  let text_ := default (PStr []) (chunk !! "text") in
  let source_file_ :=
    py_str (default (PStr (pystr_of "unknown")) (chunk !! "source_file")) in
  bind_outcome (py_int (default (PInt 0) (chunk !! "chunk_index")))
    (fun chunk_index_ =>
  bind_outcome (py_int (default (PInt 1) (chunk !! "total_chunks")))
    (fun total_chunks_ =>
  Ok {| text := text_;
        source_file := source_file_;
        chunk_index := chunk_index_;
        total_chunks := total_chunks_;
        extra := coerce_extra <$>
                   filter (fun kv => kv.1 ∉ fixed_keys) chunk |})).

(** The [for chunk in chunks] loop of lines 84-100: each entry is appended
    to [self.metadata] as soon as it is built. *)
Fixpoint append_metadata `{Runtime} (chunks : list (gmap string pyval))
    (st : store) : outcome unit * store :=
  match chunks with
  | [] => (Ok tt, st)
  | chunk :: rest =>
      match metadata_entry_of chunk with
      | Ok entry =>
          append_metadata rest
            {| index := index st;
               metadata := metadata st ++ [entry];
               files := files st |}
      | Raise e => (Raise e, st)
      | OutOfFuel => (OutOfFuel, st)
      end
  end.

(** [VectorStore.add_documents] *)
Definition add_documents `{Runtime} (chunks : list (gmap string pyval))
    (embeddings : list vec) (st : store) : outcome unit * store :=
  if bool_decide (chunks = []) || bool_decide (embeddings = []) then (Ok tt, st)
  else if negb (Nat.eqb (length chunks) (length embeddings)) then
    (Raise (ValueError_count_mismatch (length chunks) (length embeddings)), st)
  else
    match array_width embeddings with
    | Ok width =>
        if negb (Nat.eqb width embedding_dim) then
          (Raise (ValueError_dimension_mismatch embedding_dim width), st)
        else
          let st := {| index := index st ++ embeddings;
                       metadata := metadata st;
                       files := files st |} in
          match append_metadata chunks st with
          | (Ok _, st) => (Ok tt, _save_index st)
          | failed => failed
          end
    | Raise e => (Raise e, st)
    | OutOfFuel => (OutOfFuel, st)
    end.

(** Squared Euclidean distance, the metric of [IndexFlatL2]. *)
Definition l2_sqr (a b : vec) : Q :=
  fold_right Qplus 0%Q (zip_with (fun x y => ((x - y) * (x - y))%Q) a b).

(** Ranking by ascending distance, the earlier row first among equals. *)
Fixpoint insert_ranked (x : Q * nat) (l : list (Q * nat)) : list (Q * nat) :=
  match l with
  | [] => [x]
  | y :: l' =>
      if Qle_bool (fst x) (fst y) then x :: l
      else y :: insert_ranked x l'
  end.

Definition rank (l : list (Q * nat)) : list (Q * nat) :=
  fold_right insert_ranked [] l.

(** [self.index.search(query_array, k)] for [k] at most the number of
    rows, as [search_similar] calls it; the wrapper asserts [k > 0]. *)
Definition index_search (rows : list vec) (query : vec) (k : Z)
  : outcome (list (Q * nat)) :=
  if k <=? 0 then Raise AssertionError
  else Ok (take (Z.to_nat k)
             (rank (imap (fun i row => (l2_sqr query row, i)) rows))).

(** [chunk_data['metadata']]: the entry without its text. *)
Record hit_metadata := {
  m_source_file : str;
  m_chunk_index : Z;
  m_total_chunks : Z;
  m_extra : gmap string pyval
}.

(** One element of the list [search_similar] returns; [hit_id] is the
    number in [f"chunk_{idx}"]. *)
Record hit := {
  hit_text : pyval;
  hit_metadata_ : hit_metadata;
  hit_id : nat;
  hit_distance : Q
}.

(** Lines 135-144. *)
Fixpoint format_results (records : list metadata_entry)
    (found : list (Q * nat)) : list hit :=
  match found with
  | [] => []
  | (distance, idx) :: rest =>
      match records !! idx with
      | Some entry =>
          {| hit_text := text entry;
             hit_metadata_ :=
               {| m_source_file := source_file entry;
                  m_chunk_index := chunk_index entry;
                  m_total_chunks := total_chunks entry;
                  m_extra := extra entry |};
             hit_id := idx;
             hit_distance := distance |} :: format_results records rest
      | None => format_results records rest
      end
  end.

(** [VectorStore.search_similar] *)
Definition search_similar (c : config) (query_embedding : vec)
    (top_k : option Z) (st : store) : outcome (list hit) :=
  let top_k := match top_k with Some k => k | None => TOP_K_CHUNKS c end in
  if Nat.eqb (ntotal st) 0 then Ok []
  else if negb (Nat.eqb (length query_embedding) embedding_dim) then
    Raise (ValueError_query_dimension_mismatch embedding_dim (length query_embedding))
  else
    bind_outcome
      (index_search (index st) query_embedding (Z.min top_k (Z.of_nat (ntotal st))))
      (fun found => Ok (format_results (metadata st) found)).

(** [VectorStore.clear_collection] *)
Definition clear_collection (st : store) : store :=
  _save_index (_create_new_index st).

(** [VectorStore.get_collection_count] *)
Definition get_collection_count (st : store) : nat := ntotal st.

End VectorStore.

(** ** services/rag_service.py *)
Module RAGService.
Import TextChunker VectorStore.

(** What is sent to the generator. Each constructor stands for one of the
    prompt templates of the service (with its system instruction) filled
    with the values it carries; the generator is an opaque function of it. *)
Inductive prompt :=
| AnswerFromRecords (question context : str)
| AnswerGeneral (question : str)
| RecommendFromRecords (question full_context : str)
| RecommendGeneral (question : str)
| Summarize (medical_records_text : str).

(** The collaborators of [RAGService]: configuration, the document reader's
    view of the corpus directory, the embedder and the generator. *)
Record env := {
  cfg : config;
  get_records_with_metadata : list document;
  read_all_records : str;
  generate_embedding : str -> called vec;
  generate_embeddings_batch : list pyval -> called (list vec);
  _call_gemini_api : prompt -> called str
}.

(** A method of the service: it reads and updates the vector store and
    returns a value, raises, or runs out of fuel. *)
Definition M (A : Type) : Type := store -> outcome A * store.

Definition ret {A} (a : A) : M A := fun st => (Ok a, st).

Definition bind {A B} (m : M A) (k : A -> M B) : M B :=
  fun st =>
    match m st with
    | (Ok a, st') => k a st'
    | (Raise e, st') => (Raise e, st')
    | (OutOfFuel, st') => (OutOfFuel, st')
    end.

Definition lift {A} (x : outcome A) : M A := fun st => (x, st).

(** [try: body except Exception as e: handler(e)] *)
Definition try_except {A} (body : M A) (handler : exn -> M A) : M A :=
  fun st =>
    match body st with
    | (Raise e, st') => handler e st'
    | done => done
    end.

Notation "'let*' x ':=' m 'in' k" := (bind m (fun x => k))
  (at level 10, x name, m at level 100, k at level 200, only parsing).

Inductive ingest_status := success | no_documents | no_chunks.

Record ingest_result := {
  status : ingest_status;
  message : str;
  documents_processed : nat;
  chunks_created : nat;
  vector_store_count : option nat
}.

Record query_result := {
  answer : str;
  recommendations : list str;
  sources : list str;
  needs_followup : bool;
  has_records : bool
}.

Record recommendations_result := {
  rec_recommendations : list str;
  rec_sources : list str
}.

(** [str(e)] *)
Definition exn_message `{Runtime} (e : exn) : str :=
  match e with
  | Exception_ m => m
  | _ => str_of_exn e
  end.

(** [[chunk['text'] for chunk in all_chunks]] *)
Fixpoint chunk_texts_of (all_chunks : list (gmap string pyval))
  : outcome (list pyval) :=
  match all_chunks with
  | [] => Ok []
  | chunk :: rest =>
      match chunk !! "text" with
      | Some t => bind_outcome (chunk_texts_of rest) (fun ts => Ok (t :: ts))
      | None => Raise (KeyError "text")
      end
  end.

(** [RAGService.ingest_documents] *)
Definition ingest_documents `{Runtime} (fuel : nat) (e : env) (rebuild : bool)
  : M ingest_result :=
  let* _ := (fun st => (Ok tt, if rebuild then clear_collection st else st)) in
  let records := get_records_with_metadata e in
  if bool_decide (records = []) then
    ret {| status := no_documents;
           message := pystr_of "No medical records found to ingest";
           documents_processed := 0;
           chunks_created := 0;
           vector_store_count := None |}
  else
    let* all_chunks := lift (match chunk_documents fuel (cfg e) records with
                        | Some chunks => Ok chunks
                        | None => OutOfFuel
                        end) in
    if bool_decide (all_chunks = []) then
      ret {| status := no_chunks;
             message := pystr_of "No chunks created from documents";
             documents_processed := length records;
             chunks_created := 0;
             vector_store_count := None |}
    else
      let* chunk_texts := lift (chunk_texts_of all_chunks) in
      let* embeddings := lift (of_call (generate_embeddings_batch e chunk_texts)) in
      let* _ := add_documents all_chunks embeddings in
      let* count := (fun st => (Ok (get_collection_count st), st)) in
      ret {| status := success;
             message := pystr_of "Successfully ingested "
                        ++ py_str (PInt (len records))
                        ++ pystr_of " documents";
             documents_processed := length records;
             chunks_created := length all_chunks;
             vector_store_count := Some count |}.

(** Lines 117-124 (and 222-227): the labelled context parts and the
    sources seen so far, after one more retrieved chunk. *)
Definition collect_chunk `{Runtime} (acc : list str * list str) (chunk : hit)
  : list str * list str :=
  let '(context_parts, sources_) := acc in
  let source_file_ := m_source_file (hit_metadata_ chunk) in
  let chunk_text_ := hit_text chunk in
  let context_parts :=
    context_parts ++
      [pystr_of "[From " ++ source_file_ ++ pystr_of "]" ++ [10%N]
         ++ py_str chunk_text_] in
  if bool_decide (source_file_ ∈ sources_) then (context_parts, sources_)
  else (context_parts, sources_ ++ [source_file_]).

Definition collect `{Runtime} (similar_chunks : list hit) : list str * list str :=
  fold_left collect_chunk similar_chunks ([], []).

(** Lines 180-185. *)
Definition asks_followup `{Runtime} (answer_ : str) : bool :=
  contains (pystr_of "would you like") (lower answer_)
  || contains (pystr_of "do you want") (lower answer_)
  || contains (pystr_of "can provide") (lower answer_)
  || contains (pystr_of "would you") (lower answer_).

Definition no_access_answer : str :=
  pystr_of "I don't have access to your medical records yet. Please upload your medical records first.".

(** Lines 109-169 of [RAGService.query]: the prompt and the sources for
    the retrieved chunks. *)
Definition answer_prompt `{Runtime} (question : str) (similar_chunks : list hit)
  : prompt * list str :=
  let has_relevant_records := (0 <? len similar_chunks) in
  let '(context_parts, sources_) :=
    if has_relevant_records then collect similar_chunks else ([], []) in
  let context :=
    if bool_decide (context_parts = []) then []
    else join [10%N; 10%N] context_parts in
  (if has_relevant_records then AnswerFromRecords question context
   else AnswerGeneral question, sources_).

(** Lines 103-201 of [RAGService.query]: what follows the bootstrap. *)
Definition answer_question `{Runtime} (e : env) (question : str)
  : M query_result :=
  let* question_embedding := lift (of_call (generate_embedding e question)) in
  let* similar_chunks := (fun st => (search_similar (cfg e) question_embedding None st, st)) in
  let has_relevant_records := (0 <? len similar_chunks) in
  let '(prompt_, sources_) := answer_prompt question similar_chunks in
  try_except
    (let* full_response := lift (of_call (_call_gemini_api e prompt_)) in
     let answer_ := strip full_response in
     ret {| answer := answer_;
            recommendations := [];
            sources := sources_;
            needs_followup := asks_followup answer_;
            has_records := has_relevant_records |})
    (fun err =>
     ret {| answer := pystr_of "Error generating answer: " ++ exn_message err;
            recommendations := [];
            sources := sources_;
            needs_followup := false;
            has_records := has_relevant_records |}).

(** [RAGService.query] *)
Definition query `{Runtime} (fuel : nat) (e : env) (question : str)
  : M query_result :=
  let* count := (fun st => (Ok (get_collection_count st), st)) in
  if Nat.eqb count 0 then
    let* ingest_result_ := ingest_documents fuel e false in
    match status ingest_result_ with
    | success => answer_question e question
    | _ =>
        ret {| answer := no_access_answer;
               recommendations := [];
               sources := [];
               needs_followup := false;
               has_records := false |}
    end
  else answer_question e question.

(** The characters removed by [line.lstrip('-•*0123456789.) ')]. *)
Definition marker_chars : str :=
  [45; 8226; 42; 48; 49; 50; 51; 52; 53; 54; 55; 56; 57; 46; 41; 32]%N.

(** The condition of lines 277-278 on a stripped line. *)
Definition is_list_item `{Runtime} (line : str) : bool :=
  negb (str_eqb line [])
  && (startswith line [45%N] || startswith line [8226%N] || startswith line [42%N]
      || ((2 <? len line)
          && match line with
             | c0 :: c1 :: _ => isdigit c0 && (N.eqb c1 46 || N.eqb c1 41)
             | _ => false
             end)).

(** The body of the loop of lines 275-281 for one line. *)
Definition parse_line `{Runtime} (recommendations_ : list str) (line : str)
  : list str :=
  let line := strip line in
  if is_list_item line then
    let rec := strip (lstrip_chars marker_chars line) in
    if negb (str_eqb rec [])
       && negb (contains (pystr_of "disclaimer") (lower rec))
       && (10 <? len rec)
    then recommendations_ ++ [rec]
    else recommendations_
  else recommendations_.

Definition fallback_recommendation : str :=
  pystr_of "Please consult with your healthcare provider for personalized medical advice.".

(** Lines 274-284: the recommendations parsed from the generated text. *)
Definition parse_recommendations `{Runtime} (full_response : str) : list str :=
  let recommendations_ := fold_left parse_line (split_lines full_response) [] in
  if bool_decide (recommendations_ = []) then [fallback_recommendation]
  else recommendations_.

(** Lines 218-268 of [RAGService.get_recommendations]: the prompt and the
    sources for the retrieved chunks. *)
Definition recommend_prompt `{Runtime} (e : env) (question : str)
    (context_from_records : bool) (similar_chunks : list hit)
  : prompt * list str :=
  let '(context_parts, sources_) :=
    if bool_decide (similar_chunks = []) then ([], []) else collect similar_chunks in
  let all_records := read_all_records e in
  let context :=
    if bool_decide (context_parts = []) then []
    else join [10%N; 10%N] context_parts in
  (if context_from_records
      && (negb (str_eqb context []) || negb (str_eqb all_records []))
   then
     let full_context :=
       if negb (str_eqb all_records []) && negb (contains context all_records)
       then
         if negb (str_eqb context [])
         then context ++ [10%N; 10%N] ++ pystr_of "All Medical Records:" ++ [10%N]
                ++ all_records
         else pystr_of "All Medical Records:" ++ [10%N] ++ all_records
       else context in
     RecommendFromRecords question full_context
   else RecommendGeneral question, sources_).

(** [RAGService.get_recommendations] *)
Definition get_recommendations `{Runtime} (e : env) (question : str)
    (context_from_records : bool) : M recommendations_result :=
  let* question_embedding := lift (of_call (generate_embedding e question)) in
  let* similar_chunks := (fun st => (search_similar (cfg e) question_embedding None st, st)) in
  let '(prompt_, sources_) :=
    recommend_prompt e question context_from_records similar_chunks in
  try_except
    (let* full_response := lift (of_call (_call_gemini_api e prompt_)) in
     ret {| rec_recommendations := parse_recommendations full_response;
            rec_sources := sources_ |})
    (fun err =>
     ret {| rec_recommendations :=
              [pystr_of "Error generating recommendations: " ++ exn_message err];
            rec_sources := sources_ |}).

Definition no_records_found : str := pystr_of "No medical records found.".

(** [GeminiService.summarize_medical_records] *)
Definition summarize_medical_records `{Runtime} (e : env) (medical_records_text : str)
  : called str :=
  if str_eqb (strip medical_records_text) [] then Returned no_records_found
  else
    match _call_gemini_api e (Summarize medical_records_text) with
    | Raised err =>
        Raised (Exception_ (pystr_of "Error generating summary: " ++ exn_message err))
    | Returned summary => Returned summary
    end.

(** [RAGService.get_summary] *)
Definition get_summary `{Runtime} (fuel : nat) (e : env) : M str :=
  let summarize : M str :=
    let medical_records := read_all_records e in
    if str_eqb (strip medical_records) [] then ret no_records_found
    else
      try_except
        (lift (of_call (summarize_medical_records e medical_records)))
        (fun err => ret (pystr_of "Error generating summary: " ++ exn_message err)) in
  let* count := (fun st => (Ok (get_collection_count st), st)) in
  if Nat.eqb count 0 then
    let* ingest_result_ := ingest_documents fuel e false in
    match status ingest_result_ with
    | success => summarize
    | _ => ret no_records_found
    end
  else summarize.

End RAGService.

(** ** services/document_reader.py *)
Module DocumentReader.
Import TextChunker.

(** One element of [sorted(self.records_dir.glob("*.txt"))]: the name and
    the stem of the path, and what opening and reading the file gives (the
    decoded text, or the exception that the loop catches). *)
Record txt_file := {
  file_name : str;
  file_stem : str;
  file_read : called str
}.

(** [self.records_dir]: [None] when the directory does not exist, else its
    [*.txt] files in sorted order. *)
Definition directory := option (list txt_file).

(** [s.split(sep)] for a separator of one character. *)
Fixpoint split_char (sep : char) (s : str) : list str :=
  match s with
  | [] => [[]]
  | c :: s' =>
      if N.eqb c sep then [] :: split_char sep s'
      else match split_char sep s' with
           | part :: parts => (c :: part) :: parts
           | [] => [[c]]
           end
  end.

(** [f"\n\n=== {file_path.name} ===\n\n"] *)
Definition header (name : str) : str :=
  [10; 10]%N ++ pystr_of "=== " ++ name ++ pystr_of " ===" ++ [10; 10]%N.

(** The list [all_text] of [read_all_records] after the loop. *)
Fixpoint all_text (txt_files : list txt_file) : list str :=
  match txt_files with
  | [] => []
  | file_path :: rest =>
      match file_read file_path with
      | Returned raw =>
          let content := strip raw in
          if str_eqb content [] then all_text rest
          else header (file_name file_path) :: content :: all_text rest
      | Raised _ => all_text rest
      end
  end.

(** [DocumentReader.read_all_records] *)
Definition read_all_records (records_dir : directory) : str :=
  match records_dir with
  | None => []
  | Some txt_files => join [10%N] (all_text txt_files)
  end.

(** [DocumentReader.get_records_list] *)
Definition get_records_list (records_dir : directory) : list (str * str) :=
  match records_dir with
  | None => []
  | Some txt_files =>
      omap (fun file_path =>
              match file_read file_path with
              | Returned raw =>
                  let content := strip raw in
                  if str_eqb content [] then None
                  else Some (file_name file_path, content)
              | Raised _ => None
              end) txt_files
  end.

(** Lines 91-101: the date taken from the last part of the stem.
    [strptime] stands for
    [datetime.strptime(date_str, '%Y-%m-%d').strftime('%Y-%m-%d')], [None]
    when it raises. *)
Definition date_of (strptime : str -> option str) (stem : str) : pyval :=
  let filename_parts := split_char 95%N stem in
  if 1 <? len filename_parts then
    match strptime (List.last filename_parts []) with
    | Some date => PStr date
    | None => PNone
    end
  else PNone.

(** The body of the loop of [get_records_with_metadata] for one file. *)
Definition record_of (strptime : str -> option str) (file_path : txt_file)
  : option document :=
  match file_read file_path with
  | Returned raw =>
      let content := strip raw in
      if str_eqb content [] then None
      else
        Some {| doc_name := file_name file_path;
                doc_content := content;
                doc_metadata :=
                  <["file_type" := PStr (pystr_of "medical_record")]>
                    (<["date" := date_of strptime (file_stem file_path)]>
                       {["filename" := PStr (file_name file_path)]}) |}
  | Raised _ => None
  end.

(** [DocumentReader.get_records_with_metadata] *)
Definition get_records_with_metadata (strptime : str -> option str)
    (records_dir : directory) : list document :=
  match records_dir with
  | None => []
  | Some txt_files => omap (record_of strptime) txt_files
  end.

End DocumentReader.

(** ** services/embedding_service.py *)
Module EmbeddingService.
Import VectorStore.

(** [self.model.encode] for one text, loading of the model included. *)
Record model := {
  encode : str -> called vec
}.

(** [EmbeddingService.generate_embedding] *)
Definition generate_embedding (m : model) (text : str) : called vec :=
  if str_eqb text [] || str_eqb (strip text) [] then Returned (repeat 0%Q 384)
  else encode m text.

End EmbeddingService.

(** ** app/main.py: the service behind the endpoints *)
Module Main.
Import VectorStore RAGService.

(** The process: before the first request that needs the service the
    global [rag_service] is [None] and the vector database is what the
    files hold; afterwards the service and its store are kept. *)
Inductive app :=
| NotStarted (vector_db : disk)
| Serving (st : store).

(** A new process over the files the old one leaves. *)
Definition restart (a : app) : app :=
  match a with
  | NotStarted d => NotStarted d
  | Serving st => NotStarted (files st)
  end.

(** The number of chunks the process would report. *)
Definition held (a : app) : nat :=
  match a with
  | NotStarted d => get_collection_count (_load_index d)
  | Serving st => get_collection_count st
  end.

(** [GeminiService.__init__]: whether the key passes the check. *)
Definition configured (GEMINI_API_KEY : str) : bool :=
  negb (str_eqb GEMINI_API_KEY []
        || str_eqb GEMINI_API_KEY (pystr_of "your-gemini-api-key-here")).

(** The result of [get_rag_service]: the service, the [ValueError] of
    [GeminiService.__init__], or no result. *)
Inductive started :=
| Service (st : store)
| NotConfigured
| Unfinished.

(** [get_rag_service]: the first call builds the service, which loads the
    index from the files, and ingests the documents without clearing;
    what the ingestion raises is printed and dropped. *)
Definition get_rag_service `{Runtime} (fuel : nat) (e : env)
    (GEMINI_API_KEY : str) (a : app) : started * app :=
  match a with
  | Serving st => (Service st, a)
  | NotStarted d =>
      if configured GEMINI_API_KEY then
        match ingest_documents fuel e false (_load_index d) with
        | (Ok _, st) | (Raise _, st) => (Service st, Serving st)
        | (OutOfFuel, st) => (Unfinished, Serving st)
        end
      else (NotConfigured, a)
  end.

End Main.

(** ** app/config.py: reading the properties file *)
Module Config.

(** [line.split('=', 1)] for a line that contains the separator: what
    comes before its first occurrence and what comes after. [None]: the
    separator does not occur in the line. *)
Fixpoint split_once (sep : char) (line : str) : option (str * str) :=
  match line with
  | [] => None
  | c :: rest =>
      if N.eqb c sep then Some ([], rest)
      else match split_once sep rest with
           | Some (before, after) => Some (c :: before, after)
           | None => None
           end
  end.

(** [s.endswith(suffix)] *)
Definition endswith (s suffix : str) : bool :=
  (length suffix <=? length s)%nat
  && str_eqb (drop (length s - length suffix) s) suffix.

(** Line 40: the value is between double or single quotes. *)
Definition quoted (value : str) : bool :=
  (startswith value [34%N] && endswith value [34%N])
  || (startswith value [39%N] && endswith value [39%N]).

(** The body of the loop of [_load_properties] for one line. *)
Definition load_line (config : gmap str str) (line : str) : gmap str str :=
  let line := strip line in
  if str_eqb line [] || startswith line [35%N] then config
  else
    match split_once 61%N line with
    | Some (key, value) =>
        let key := strip key in
        let value := strip value in
        let value := if quoted value then slice value 1 (-1) else value in
        <[key := value]> config
    | None => config
    end.

(** [Config._load_properties], on the lines of the file. *)
Definition _load_properties (lines : list str) : gmap str str :=
  fold_left load_line lines ∅.

End Config.

(** ** A runtime for closed examples

    It prints [None], booleans and integers as CPython does, reads plain
    decimal literals, and treats the ASCII digits and letters as CPython
    does; the examples below use it on such values only. *)
Module ExampleRuntime.

Definition print_int (z : Z) : str :=
  pystr_of (NilZero.string_of_int (Z.to_int z)).

Definition example_repr (v : pyval) : str :=
  match v with
  | PNone => pystr_of "None"
  | PBool true => pystr_of "True"
  | PBool false => pystr_of "False"
  | PInt z => print_int z
  | PStr s => s
  | _ => pystr_of "<object>"
  end.

Definition example_isdigit (c : char) : bool := (48 <=? c)%N && (c <=? 57)%N.

Fixpoint digits_value (acc : Z) (s : str) : option Z :=
  match s with
  | [] => Some acc
  | c :: s' =>
      if example_isdigit c then digits_value (10 * acc + (Z.of_N c - 48)) s'
      else None
  end.

Definition example_parse_int (s : str) : option Z :=
  match s with
  | [] => None
  | 45%N :: [] => None
  | 45%N :: s' => option_map Z.opp (digits_value 0 s')
  | _ => digits_value 0 s
  end.

Definition example_lower (s : str) : str :=
  List.map (fun c => if (65 <=? c)%N && (c <=? 90)%N then (c + 32)%N else c) s.

#[export] Instance example_runtime : Runtime := {|
  repr := example_repr;
  parse_int := example_parse_int;
  isdigit := example_isdigit;
  lower := example_lower;
  str_of_exn := fun _ => pystr_of "error"
|}.

End ExampleRuntime.

Import TextChunker VectorStore RAGService ExampleRuntime.

(** ** Vocabulary of the properties *)

(** The windows the loop of [chunk_text] visits, without the dictionaries
    built around them: start, end and text of each. *)
Fixpoint windows (fuel : nat) (c : config) (text : str) (start : Z)
  : option (list (Z * Z * str)) :=
  match fuel with
  | O => None
  | S fuel' =>
      if start <? len text then
        let '(end_, chunk_text) := window c text start in
        if len text <=? end_ - CHUNK_OVERLAP c then Some [(start, end_, chunk_text)]
        else option_map (cons (start, end_, chunk_text))
               (windows fuel' c text (end_ - CHUNK_OVERLAP c))
      else Some []
  end.

Fixpoint chunks_of_windows (source_file : pyval)
    (metadata : option (gmap string pyval)) (chunk_index : Z)
    (ws : list (Z * Z * str)) : list (gmap string pyval) :=
  match ws with
  | [] => []
  | (start, end_, chunk_text) :: rest =>
      chunk_data_of chunk_text chunk_index source_file start end_ metadata
        :: chunks_of_windows source_file metadata (chunk_index + 1) rest
  end.

(** A run of the loop from [start]: every window begins [CHUNK_OVERLAP]
    before the end of the one before it, and the run stops at the first
    window whose successor would begin at or after the end of the text. *)
Inductive walk (c : config) (text : str) : Z -> list (Z * Z * str) -> Prop :=
| walk_last start :
    start < len text ->
    len text <= fst (window c text start) - CHUNK_OVERLAP c ->
    walk c text start
      [(start, fst (window c text start), snd (window c text start))]
| walk_next start ws :
    start < len text ->
    fst (window c text start) - CHUNK_OVERLAP c < len text ->
    walk c text (fst (window c text start) - CHUNK_OVERLAP c) ws ->
    walk c text start
      ((start, fst (window c text start), snd (window c text start)) :: ws).

(** A configuration on which the loop is shown to advance: the overlap
    does not exceed the offset from which a boundary is looked for. *)
Definition advancing (c : config) : Prop :=
  1 <= CHUNK_SIZE c /\ CHUNK_OVERLAP c <= int_08 (CHUNK_SIZE c).

Definition int_field (key : string) (chunk : gmap string pyval) : option Z :=
  match chunk !! key with
  | Some (PInt z) => Some z
  | _ => None
  end.

Definition str_field (key : string) (chunk : gmap string pyval) : option str :=
  match chunk !! key with
  | Some (PStr s) => Some s
  | _ => None
  end.

(** Document metadata that does not set the keys the chunker writes. *)
Definition keeps_offsets (metadata : option (gmap string pyval)) : Prop :=
  forall md, metadata = Some md ->
    md !! "start_char" = None /\ md !! "end_char" = None /\ md !! "text" = None.

(** The chunks of a text cover it window by window: the
    first window starts at offset 0; each next window starts exactly
    [overlap] characters before the recorded end of the one before it and
    strictly after its start; the text of every chunk is the stripped slice
    between its two offsets; the last chunk holds the text from its start
    to the end, and its recorded end is its start plus [chunk_size]. *)
Definition covering (c : config) (text : str)
    (chunks : list (gmap string pyval)) : Prop :=
  (exists first, chunks !! 0%nat = Some first /\
     int_field "start_char" first = Some 0) /\
  (forall i a b, chunks !! i = Some a -> chunks !! S i = Some b ->
     exists s e,
       int_field "start_char" a = Some s /\
       int_field "end_char" a = Some e /\
       int_field "start_char" b = Some (e - CHUNK_OVERLAP c) /\
       s < e - CHUNK_OVERLAP c < len text) /\
  (forall a, a ∈ chunks ->
     exists s e,
       int_field "start_char" a = Some s /\
       int_field "end_char" a = Some e /\
       0 <= s < len text /\
       str_field "text" a = Some (strip (slice text s e))) /\
  (exists final s,
     last chunks = Some final /\
     int_field "start_char" final = Some s /\
     int_field "end_char" final = Some (s + CHUNK_SIZE c) /\
     len text <= s + CHUNK_SIZE c - CHUNK_OVERLAP c /\
     str_field "text" final = Some (strip (drop (Z.to_nat s) text))).

(** Small configurations and texts for the examples. *)
Definition small_config (overlap : Z) : config :=
  {| CHUNK_SIZE := 10; CHUNK_OVERLAP := overlap; TOP_K_CHUNKS := 3 |}.

Definition twelve_letters : str := pystr_of "aaaaaaaaaaaa".

Definition spaced_letters : str := pystr_of "aaaaaaaa aaa".

(** The index and the metadata list have one entry per stored chunk. *)
Definition consistent (st : store) : Prop :=
  length (index st) = length (metadata st).

(** The number of results [search_similar] asks for when [top_k] is given
    or left to the configuration. *)
Definition requested (c : config) (top_k : option Z) : Z :=
  match top_k with Some k => k | None => TOP_K_CHUNKS c end.

Definition zero_vector : vec := repeat 0%Q 384.
Definition unit_vector : vec := repeat 1%Q 384.

Definition example_chunk (text_ : pyval) (chunk_index_ : pyval)
  : gmap string pyval :=
  <["chunk_index" := chunk_index_]> {["text" := text_]}.

Definition fresh_store : store := _load_index NoFiles.

(** A store holding two chunks, built by [add_documents]. *)
Definition two_chunk_store : store :=
  snd (add_documents
         [example_chunk (PStr (pystr_of "first")) (PInt 0);
          example_chunk (PStr (pystr_of "second")) (PInt 1)]
         [zero_vector; unit_vector] fresh_store).

(** The line starts with a bullet marker, or with a digit followed by
    ['.'] or [')']. *)
Definition starts_with_marker `{Runtime} (line : str) : bool :=
  match line with
  | c0 :: rest =>
      N.eqb c0 45 || N.eqb c0 8226 || N.eqb c0 42
      || (isdigit c0
          && match rest with
             | c1 :: _ => N.eqb c1 46 || N.eqb c1 41
             | [] => false
             end)
  | [] => false
  end.

(** The recommendation a line of generated text contributes, if any: the
    stripped line must start with a marker; the leading marker characters
    and the surrounding whitespace are removed; what is left is kept when
    it has more than 10 characters and does not contain "disclaimer". *)
Definition recommendation_of_line `{Runtime} (line : str) : option str :=
  let line := strip line in
  if starts_with_marker line then
    let rec := strip (lstrip_chars marker_chars line) in
    if (10 <? len rec) && negb (contains (pystr_of "disclaimer") (lower rec))
    then Some rec else None
  else None.

(** A list with its duplicates removed, the elements in the order of
    their first occurrence. *)
Fixpoint first_seen (names : list str) : list str :=
  match names with
  | [] => []
  | name :: rest => name :: filter (fun other => other <> name) (first_seen rest)
  end.

Definition source_of (h : hit) : str := m_source_file (hit_metadata_ h).

(** Collaborators for the examples: no documents in the corpus directory,
    an embedder and a generator that answer every call the same way. *)
Definition example_env (embedding : called vec) (generated : called str) : env :=
  {| cfg := default_config;
     get_records_with_metadata := [];
     read_all_records := [];
     generate_embedding := fun _ => embedding;
     generate_embeddings_batch :=
       fun texts => Returned (List.map (fun _ => zero_vector) texts);
     _call_gemini_api := fun _ => generated |}.

(** The chunks retrieved from [two_chunk_store] for [unit_vector]. *)
Definition example_hits : list hit :=
  match search_similar default_config unit_vector None two_chunk_store with
  | Ok hits => hits
  | _ => []
  end.

Definition example_question : str := pystr_of "What is the capital of France?".

Definition model_not_loaded : exn := Exception_ (pystr_of "model not loaded").

Definition quota_exceeded : exn := Exception_ (pystr_of "API quota exceeded").

(** A corpus directory with one short record. *)
Definition checkup_record : document :=
  {| doc_name := pystr_of "checkup_2024-01-10.txt";
     doc_content := pystr_of "Blood pressure: 120/80, normal.";
     doc_metadata :=
       <["file_type" := PStr (pystr_of "medical_record")]>
         (<["date" := PStr (pystr_of "2024-01-10")]>
            {["filename" := PStr (pystr_of "checkup_2024-01-10.txt")]}) |}.

(** Collaborators over that directory, with a batch embedder that answers
    every call the same way. *)
Definition checkup_env (embeddings : called (list vec)) : env :=
  {| cfg := default_config;
     get_records_with_metadata := [checkup_record];
     read_all_records := doc_content checkup_record;
     generate_embedding := fun _ => Returned unit_vector;
     generate_embeddings_batch := fun _ => embeddings;
     _call_gemini_api := fun _ => Returned (pystr_of "Your blood pressure is normal.") |}.

(** The result [query] returns when there is nothing to search. *)
Definition no_access_result : query_result :=
  {| answer := no_access_answer;
     recommendations := [];
     sources := [];
     needs_followup := false;
     has_records := false |}.

(** An embedding far from both vectors of [two_chunk_store]. *)
Definition far_vector : vec := repeat (-5)%Q 384.

(** The order of the ranking: by distance. *)
Definition nearer (a b : Q * nat) : Prop := (fst a <= fst b)%Q.

(** Metadata as [DocumentReader] builds it for a file without a date. *)
Definition notes_metadata : gmap string pyval :=
  <["file_type" := PStr (pystr_of "medical_record")]>
    (<["date" := PNone]> {["filename" := PStr (pystr_of "notes.txt")]}).

(** The chunks of [twelve_letters] under [small_config 2]. *)
Definition twelve_letter_chunks : list (gmap string pyval) :=
  match chunk_text 12 (small_config 2) twelve_letters
          (PStr (pystr_of "notes.txt")) (Some notes_metadata) with
  | Some chunks => chunks
  | None => []
  end.

(** A record too long for one chunk of [small_config 2]. *)
Definition notes_record : document :=
  {| doc_name := pystr_of "notes.txt";
     doc_content := twelve_letters;
     doc_metadata := notes_metadata |}.

(** The second of [twelve_letter_chunks]. *)
Definition second_letter_chunk : gmap string pyval :=
  default ∅ (twelve_letter_chunks !! 1%nat).

(** The chunks of the directory that holds [notes_record] only. *)
Definition notes_chunks : list (gmap string pyval) :=
  default [] (chunk_documents 12 (small_config 2) [notes_record]).

(** An equation between closed terms, checked by evaluating both sides. *)
Ltac by_evaluation :=
  lazymatch goal with
  | |- ?x = ?y => exact (@eq_refl _ y <: x = y)
  end.

(** A report for the examples to fall back on. *)
Definition empty_report : ingest_result :=
  {| status := no_documents; message := []; documents_processed := 0;
     chunks_created := 0; vector_store_count := None |}.

(** A rebuild of [two_chunk_store] over the directory of [checkup_env],
    with an embedder that returns one vector. *)
Definition rebuilt : outcome ingest_result * store :=
  ingest_documents 1 (checkup_env (Returned [unit_vector])) true two_chunk_store.

Definition rebuilt_report : ingest_result :=
  match fst rebuilt with Ok r => r | _ => empty_report end.

(** The same rebuild with an embedder that raises. *)
Definition failed_rebuild : outcome ingest_result * store :=
  ingest_documents 1 (checkup_env (Raised model_not_loaded)) true two_chunk_store.

(** The result of [example_question] asked of [two_chunk_store], with a
    generator that answers "Paris.". *)
Definition answered_result : query_result :=
  {| answer := pystr_of "Paris.";
     recommendations := [];
     sources := [pystr_of "unknown"];
     needs_followup := false;
     has_records := true |}.

(** Files of a records directory: a blank one, one that cannot be read,
    and one of twelve letters between white space. *)
Definition blank_file : DocumentReader.txt_file :=
  {| DocumentReader.file_name := pystr_of "blank.txt";
     DocumentReader.file_stem := pystr_of "blank";
     DocumentReader.file_read := Returned [32; 32; 10]%N |}.

Definition locked_file : DocumentReader.txt_file :=
  {| DocumentReader.file_name := pystr_of "locked.txt";
     DocumentReader.file_stem := pystr_of "locked";
     DocumentReader.file_read :=
       Raised (Exception_ (pystr_of "Permission denied")) |}.

Definition notes_file : DocumentReader.txt_file :=
  {| DocumentReader.file_name := pystr_of "notes_2024-03-01.txt";
     DocumentReader.file_stem := pystr_of "notes_2024-03-01";
     DocumentReader.file_read := Returned ([32%N] ++ twelve_letters ++ [10%N]) |}.

Definition notes_directory : DocumentReader.directory :=
  Some [blank_file; locked_file; notes_file].

(** A directory in which there is nothing to read. *)
Definition unread_directory : DocumentReader.directory :=
  Some [blank_file; locked_file].

(** A stand-in for the date parser that knows one date. *)
Definition example_strptime (date_str : str) : option str :=
  if str_eqb date_str (pystr_of "2024-03-01") then Some date_str else None.

(** An embedding model that cannot be loaded. *)
Definition missing_model : EmbeddingService.model :=
  {| EmbeddingService.encode := fun _ => Raised model_not_loaded |}.

(** Collaborators over [notes_directory]: questions go through
    [EmbeddingService.generate_embedding] with [missing_model]; the batch
    embedder answers with one vector per text. *)
Definition reader_env : env :=
  {| cfg := small_config 2;
     get_records_with_metadata :=
       DocumentReader.get_records_with_metadata example_strptime notes_directory;
     read_all_records := DocumentReader.read_all_records notes_directory;
     generate_embedding := EmbeddingService.generate_embedding missing_model;
     generate_embeddings_batch :=
       fun texts => Returned (List.map (fun _ => unit_vector) texts);
     _call_gemini_api := fun _ => Returned (pystr_of "Noted.") |}.

(** Collaborators over [unread_directory], with a generator that raises. *)
Definition unread_env : env :=
  {| cfg := default_config;
     get_records_with_metadata :=
       DocumentReader.get_records_with_metadata example_strptime unread_directory;
     read_all_records := DocumentReader.read_all_records unread_directory;
     generate_embedding := fun _ => Returned unit_vector;
     generate_embeddings_batch :=
       fun texts => Returned (List.map (fun _ => unit_vector) texts);
     _call_gemini_api := fun _ => Raised quota_exceeded |}.

(** The first ingestion of a process started without files. *)
Definition first_start : outcome ingest_result * store :=
  ingest_documents 12 reader_env false (_load_index NoFiles).

Definition first_report : ingest_result :=
  {| status := success;
     message := pystr_of "Successfully ingested 1 documents";
     documents_processed := 1;
     chunks_created := 2;
     vector_store_count := Some 2%nat |}.

(** Recommendations asked of [two_chunk_store]. *)
Definition recommended : outcome recommendations_result * store :=
  get_recommendations
    (example_env (Returned unit_vector)
       (Returned (pystr_of "- Drink more water every day")))
    example_question true two_chunk_store.

Definition recommended_result : recommendations_result :=
  match fst recommended with
  | Ok r => r
  | _ => {| rec_recommendations := []; rec_sources := [] |}
  end.

(** Lines of a properties file. *)
Definition example_properties : list str :=
  [pystr_of "# RAG" ++ [10%N]; pystr_of "CHUNK_SIZE = 500" ++ [10%N]].

(** * Properties *)

(** ** Slices and searches *)
Section SliceFacts.

Lemma len_nonneg {A} (l : list A) : 0 <= len l.
Proof. unfold len. lia. Qed.

Lemma clamp_inside n i : 0 <= i -> clamp n i = Z.min i n.
Proof. intros Hi. unfold clamp. destruct (Z.ltb_spec i 0); lia. Qed.

Lemma slice_length {A} (s : list A) a b :
  0 <= a -> a <= b ->
  len (slice s a b) = Z.min b (len s) - Z.min a (len s).
Proof.
  intros Ha Hab. unfold slice. rewrite !clamp_inside by lia.
  unfold len. rewrite length_take, length_drop. lia.
Qed.

Lemma slice_whole_tail {A} (s : list A) a b :
  0 <= a -> a <= len s -> len s <= b -> slice s a b = drop (Z.to_nat a) s.
Proof.
  intros Ha Hal Hb. unfold slice. rewrite !clamp_inside by lia.
  rewrite (Z.min_l a) by lia. rewrite (Z.min_r b) by lia.
  apply take_ge. rewrite length_drop. unfold len in *. lia.
Qed.

Lemma rfind_down_range s sub lo n :
  rfind_down s sub lo n = -1 \/
  (Z.of_nat lo <= rfind_down s sub lo n < Z.of_nat lo + Z.of_nat n).
Proof.
  induction n as [|n IH]; simpl; [now left|].
  destruct (occurs_at s sub (lo + n)); [right; lia|].
  destruct IH as [IH|IH]; [now left | right; lia].
Qed.

Lemma rfind_range s sub start :
  0 <= start ->
  rfind s sub start = -1 \/
  (start <= rfind s sub start /\ rfind s sub start + len sub <= len s).
Proof.
  intros Hs. unfold rfind.
  destruct (Z.ltb_spec start 0) as [?|_]; [lia|].
  destruct (Z.ltb_spec (len s - start) (len sub)) as [Hlt|Hge]; [now left|].
  pose proof (len_nonneg sub) as Hsub.
  destruct (rfind_down_range s sub (Z.to_nat start)
              (Z.to_nat (len s - len sub - start + 1))) as [H|H];
    [now left | right].
  lia.
Qed.

End SliceFacts.

(** ** The chunker's loop *)
Section ChunkerFacts.

Lemma int_08_bounds cs : 1 <= cs -> 0 <= int_08 cs < cs.
Proof.
  intros H. unfold int_08.
  rewrite Z.quot_div_nonneg by lia.
  split; [apply Z.div_pos; lia|].
  apply Z.div_lt_upper_bound; lia.
Qed.

Lemma cut_at_boundary_range ct from bs off :
  0 <= from ->
  cut_at_boundary ct from bs = Some off ->
  from + 1 <= off <= len ct.
Proof.
  intros Hfrom. induction bs as [|b bs IH]; simpl; [discriminate|].
  destruct b as [|b0 b']; [exact IH|].
  destruct (Z.eqb_spec (rfind ct (b0 :: b') from) (-1)) as [_|Hne]; [exact IH|].
  intros [= <-].
  destruct (rfind_range ct (b0 :: b') from Hfrom) as [H|[H1 H2]]; [contradiction|].
  assert (1 <= len (b0 :: b')) by (unfold len; simpl; lia). lia.
Qed.

(** The end of a window lies strictly beyond the point the next start is
    computed from, and never beyond [start + chunk_size]; a window that is
    cut at a boundary ends inside the text. *)
Lemma window_end c text start :
  1 <= CHUNK_SIZE c -> 0 <= start ->
  let e := fst (window c text start) in
  start + int_08 (CHUNK_SIZE c) + 1 <= e \/ e = start + CHUNK_SIZE c.
Proof.
  intros Hcs Hstart. unfold window.
  pose proof (int_08_bounds _ Hcs) as H08.
  destruct (Z.ltb_spec (start + CHUNK_SIZE c) (len text)) as [Hin|Hout];
    [|now right].
  destruct (cut_at_boundary _ _ boundary_chars) as [off|] eqn:Hcut; [|now right].
  apply cut_at_boundary_range in Hcut; [|lia]. simpl. left. lia.
Qed.

Lemma window_end_le c text start :
  1 <= CHUNK_SIZE c -> 0 <= start ->
  fst (window c text start) <= start + CHUNK_SIZE c.
Proof.
  intros Hcs Hstart. unfold window.
  pose proof (int_08_bounds _ Hcs) as H08.
  destruct (Z.ltb_spec (start + CHUNK_SIZE c) (len text)) as [Hin|Hout];
    [|simpl; lia].
  destruct (cut_at_boundary _ _ boundary_chars) as [off|] eqn:Hcut; [|simpl; lia].
  apply cut_at_boundary_range in Hcut; [|lia]. simpl.
  rewrite slice_length in Hcut by lia. lia.
Qed.

Lemma window_text c text start :
  snd (window c text start) = slice text start (fst (window c text start)).
Proof.
  unfold window.
  destruct (start + CHUNK_SIZE c <? len text); [|reflexivity].
  destruct (cut_at_boundary _ _ boundary_chars); reflexivity.
Qed.

Lemma window_past_end c text start :
  1 <= CHUNK_SIZE c -> 0 <= start ->
  len text <= fst (window c text start) ->
  fst (window c text start) = start + CHUNK_SIZE c.
Proof.
  intros Hcs Hstart. unfold window.
  destruct (Z.ltb_spec (start + CHUNK_SIZE c) (len text)) as [Hin|Hout];
    [|reflexivity].
  destruct (cut_at_boundary _ _ boundary_chars) as [off|] eqn:Hcut; [|reflexivity].
  apply cut_at_boundary_range in Hcut;
    [|pose proof (int_08_bounds _ Hcs); lia].
  rewrite slice_length in Hcut by lia. simpl. lia.
Qed.

Lemma window_advances c text start :
  advancing c -> 0 <= start ->
  start < fst (window c text start) - CHUNK_OVERLAP c.
Proof.
  intros [Hcs Hov] Hstart.
  pose proof (int_08_bounds _ Hcs).
  destruct (window_end c text start Hcs Hstart) as [H1|H1]; lia.
Qed.

Lemma chunk_loop_windows c text sf md fuel : forall start idx acc,
  chunk_loop fuel c text sf md start idx acc =
  option_map (fun ws => acc ++ chunks_of_windows sf md idx ws)
    (windows fuel c text start).
Proof.
  induction fuel as [|fuel IH]; intros start idx acc; simpl; [reflexivity|].
  destruct (start <? len text); [|simpl; now rewrite app_nil_r].
  destruct (window c text start) as [e ct].
  destruct (len text <=? e - CHUNK_OVERLAP c); [reflexivity|].
  rewrite IH. destruct (windows fuel c text (e - CHUNK_OVERLAP c)); simpl;
    [|reflexivity].
  now rewrite <- app_assoc.
Qed.

Lemma windows_walk c text : advancing c ->
  forall fuel start,
  0 <= start < len text ->
  (Z.to_nat (len text - start) <= fuel)%nat ->
  exists ws, windows fuel c text start = Some ws /\ walk c text start ws.
Proof.
  intros Hadv. induction fuel as [|fuel IH]; intros start Hstart Hfuel; [lia|].
  simpl. destruct (Z.ltb_spec start (len text)) as [_|?]; [|lia].
  pose proof (window_advances c text start Hadv (proj1 Hstart)) as Hprog.
  destruct (window c text start) as [e ct] eqn:Hw. simpl in Hprog.
  destruct (Z.leb_spec (len text) (e - CHUNK_OVERLAP c)) as [Hend|Hmore].
  - eexists; split; [reflexivity|].
    pose proof (walk_last c text start) as W. rewrite Hw in W. apply W; simpl; lia.
  - destruct (IH (e - CHUNK_OVERLAP c)) as (ws & -> & Hws); [lia|lia|].
    eexists; split; [reflexivity|].
    pose proof (walk_next c text start ws) as W. rewrite Hw in W.
    apply W; simpl; solve [lia | assumption].
Qed.

Lemma walk_consecutive c text : advancing c ->
  forall start ws, 0 <= start -> walk c text start ws ->
  forall i s e ct s' e' ct',
    ws !! i = Some (s, e, ct) -> ws !! S i = Some (s', e', ct') ->
    s' = e - CHUNK_OVERLAP c /\ s < s' < len text.
Proof.
  intros Hadv start ws Hstart W.
  induction W as [start Hlt Hend | start ws Hlt Hmore W IH];
    intros i s e ct s' e' ct' Hi HSi.
  - destruct i; discriminate.
  - pose proof (window_advances c text start Hadv Hstart) as Hprog.
    destruct i as [|i].
    + simpl in Hi. injection Hi as <- <- <-.
      change (ws !! 0%nat = Some (s', e', ct')) in HSi.
      inversion W; subst; simpl in HSi; injection HSi as <- _ _; lia.
    + exact (IH ltac:(lia) i _ _ _ _ _ _ Hi HSi).
Qed.

Lemma walk_elem c text : advancing c ->
  forall start ws, 0 <= start -> walk c text start ws ->
  forall s e ct, (s, e, ct) ∈ ws ->
    0 <= s < len text /\ e = fst (window c text s) /\ ct = slice text s e.
Proof.
  intros Hadv start ws Hstart W.
  induction W as [start Hlt Hend | start ws Hlt Hmore W IH]; intros s e ct Hin.
  - apply list_elem_of_singleton in Hin. injection Hin as -> -> ->.
    rewrite <- window_text. repeat split; solve [lia | reflexivity].
  - apply elem_of_cons in Hin as [Heq|Hin].
    + injection Heq as -> -> ->.
      rewrite <- window_text. repeat split; solve [lia | reflexivity].
    + pose proof (window_advances c text start Hadv Hstart).
      apply IH; [lia | assumption].
Qed.

Lemma walk_final c text : advancing c -> 0 <= CHUNK_OVERLAP c ->
  forall start ws, 0 <= start -> walk c text start ws ->
  exists s, 0 <= s < len text /\
    last ws = Some (s, s + CHUNK_SIZE c, drop (Z.to_nat s) text) /\
    len text <= s + CHUNK_SIZE c - CHUNK_OVERLAP c.
Proof.
  intros Hadv Hov start ws Hstart W.
  induction W as [start Hlt Hend | start ws Hlt Hmore W IH].
  - exists start. pose proof (proj1 Hadv) as Hcs.
    assert (He : fst (window c text start) = start + CHUNK_SIZE c)
      by (apply window_past_end; lia).
    rewrite window_text, He in *.
    rewrite slice_whole_tail by lia. repeat split; solve [lia | reflexivity].
  - pose proof (window_advances c text start Hadv Hstart).
    destruct IH as (s & Hs & Hlast & Hfin); [lia|].
    exists s. repeat split; try lia.
    inversion W; subst; simpl in *; exact Hlast.
Qed.

Lemma chunks_of_windows_lookup sf md ws : forall idx i,
  chunks_of_windows sf md idx ws !! i =
  (fun w => chunk_data_of w.2 (idx + Z.of_nat i) sf w.1.1 w.1.2 md) <$> ws !! i.
Proof.
  induction ws as [|[[s e] ct] ws IH]; intros idx i; [reflexivity|].
  destruct i as [|i]; simpl.
  - now rewrite Z.add_0_r.
  - rewrite IH. destruct (ws !! i); simpl; [|reflexivity].
    do 2 f_equal. lia.
Qed.

Lemma chunks_of_windows_length sf md ws idx :
  length (chunks_of_windows sf md idx ws) = length ws.
Proof.
  revert idx. induction ws as [|[[s e] ct] ws IH]; intros idx; simpl;
    [reflexivity | now rewrite IH].
Qed.

Lemma update_with_lookup md m (k : string) :
  (forall md', md = Some md' -> md' !! k = None) ->
  update_with md m !! k = m !! k.
Proof.
  intros Hk. unfold update_with. destruct md as [md'|]; [|reflexivity].
  case_bool_decide; [reflexivity|].
  apply lookup_union_r. now apply Hk.
Qed.

Lemma chunk_data_fields ct idx sf s e md n :
  keeps_offsets md ->
  let chunk := <["total_chunks" := PInt n]> (chunk_data_of ct idx sf s e md) in
  int_field "start_char" chunk = Some s /\
  int_field "end_char" chunk = Some e /\
  str_field "text" chunk = Some (strip ct).
Proof.
  intros Hmd. unfold int_field, str_field, chunk_data_of.
  rewrite !lookup_insert_ne by discriminate.
  rewrite !update_with_lookup by (intros ? ?; now apply Hmd).
  repeat split.
Qed.

Lemma lstrip_with_length p s : (length (lstrip_with p s) <= length s)%nat.
Proof.
  induction s as [|ch s IH]; simpl; [lia|]. destruct (p ch); simpl; lia.
Qed.

Lemma strip_length s : (length (strip s) <= length s)%nat.
Proof.
  unfold strip, rstrip_with. rewrite length_rev.
  etransitivity; [apply lstrip_with_length|]. rewrite length_rev.
  apply lstrip_with_length.
Qed.

End ChunkerFacts.

(** ** TextChunker.chunk_text *)
Section ChunkText.

Lemma chunk_text_long fuel c text sf md :
  CHUNK_SIZE c < len (strip text) -> 1 <= CHUNK_SIZE c ->
  chunk_text fuel c text sf md =
  match windows fuel c (strip text) 0 with
  | Some ws =>
      Some (List.map (fun chunk => <["total_chunks" := PInt (len ws)]> chunk)
              (chunks_of_windows sf md 0 ws))
  | None => None
  end.
Proof.
  intros Hlong Hcs. unfold chunk_text.
  assert (Hne : strip text <> []) by (intros E; rewrite E in Hlong; unfold len in Hlong; simpl in Hlong; lia).
  assert (Hne' : text <> []) by (intros E; apply Hne; now rewrite E).
  unfold str_eqb. rewrite !bool_decide_eq_false_2 by assumption. simpl.
  destruct (Z.leb_spec (len (strip text)) (CHUNK_SIZE c)) as [?|_]; [lia|].
  rewrite chunk_loop_windows.
  destruct (windows fuel c (strip text) 0) as [ws|]; simpl; [|reflexivity].
  unfold len. now rewrite chunks_of_windows_length.
Qed.

(** On an advancing configuration the loop ends: with fuel for one test of
    the loop condition per character, [chunk_text] returns. *)
Lemma chunk_text_total fuel c text sf md :
  advancing c -> (length text <= fuel)%nat ->
  exists chunks, chunk_text fuel c text sf md = Some chunks.
Proof.
  intros Hadv Hfuel.
  destruct (Z.lt_ge_cases (CHUNK_SIZE c) (len (strip text))) as [Hlong|Hshort].
  - rewrite chunk_text_long by (destruct Hadv; lia).
    destruct (windows_walk c (strip text) Hadv fuel 0) as (ws & -> & _).
    + destruct Hadv. lia.
    + pose proof (strip_length text). unfold len. lia.
    + eauto.
  - unfold chunk_text. destruct (_ || _); [eauto|].
    destruct (Z.leb_spec (len (strip text)) (CHUNK_SIZE c)); [eauto | lia].
Qed.

Lemma map_fmap {A B} (f : A -> B) (l : list A) : List.map f l = f <$> l.
Proof. induction l as [|x l IH]; simpl; [reflexivity | now rewrite IH]. Qed.

Lemma stamped_lookup sf md ws n i :
  List.map (fun chunk => <["total_chunks" := PInt n]> chunk)
    (chunks_of_windows sf md 0 ws) !! i =
  (fun w => <["total_chunks" := PInt n]>
              (chunk_data_of w.2 (Z.of_nat i) sf w.1.1 w.1.2 md)) <$> ws !! i.
Proof.
  rewrite map_fmap, list_lookup_fmap, chunks_of_windows_lookup.
  now destruct (ws !! i).
Qed.

Lemma stamped_length sf md ws n :
  length (List.map (fun chunk => <["total_chunks" := PInt n]> chunk)
            (chunks_of_windows sf md 0 ws)) = length ws.
Proof. now rewrite length_map, chunks_of_windows_length. Qed.

(** C6, as the code has it. On an advancing configuration with a
    non-negative overlap, a text longer than [chunk_size] after stripping is
    split into chunks whose windows cover it ([covering]): consecutive
    windows share exactly [overlap] characters of offsets, and the last
    chunk runs to the end of the text. *)
Theorem chunk_text_covers fuel c text sf md :
  advancing c -> 0 <= CHUNK_OVERLAP c -> keeps_offsets md ->
  CHUNK_SIZE c < len (strip text) -> (length text <= fuel)%nat ->
  exists chunks,
    chunk_text fuel c text sf md = Some chunks /\
    covering c (strip text) chunks.
Proof.
  intros Hadv Hov Hmd Hlong Hfuel.
  rewrite chunk_text_long by (destruct Hadv; lia).
  destruct (windows_walk c (strip text) Hadv fuel 0) as (ws & -> & W).
  { destruct Hadv. lia. }
  { pose proof (strip_length text). unfold len. lia. }
  eexists; split; [reflexivity|].
  set (n := len ws). unfold covering.
  split; [|split; [|split]].
  - rewrite stamped_lookup.
    inversion W; subst; simpl; eexists; (split; [reflexivity|]);
      apply chunk_data_fields; assumption.
  - intros i a b Ha Hb. rewrite stamped_lookup in Ha, Hb.
    destruct (ws !! i) as [[[s e] ct]|] eqn:Hi; [|discriminate].
    destruct (ws !! S i) as [[[s' e'] ct']|] eqn:HSi; [|discriminate].
    injection Ha as <-. injection Hb as <-. simpl.
    destruct (walk_consecutive c _ Hadv 0 ws ltac:(lia) W _ _ _ _ _ _ _ Hi HSi)
      as [-> Hord].
    exists s, e.
    destruct (chunk_data_fields ct (Z.of_nat i) sf s e md n Hmd) as (-> & -> & _).
    destruct (chunk_data_fields ct' (Z.of_nat (S i)) sf (e - CHUNK_OVERLAP c) e' md n Hmd)
      as (-> & _ & _).
    repeat split; lia.
  - intros a Ha. apply list_elem_of_lookup in Ha as [i Ha].
    rewrite stamped_lookup in Ha.
    destruct (ws !! i) as [[[s e] ct]|] eqn:Hi; [|discriminate].
    injection Ha as <-. simpl.
    assert (Hin : (s, e, ct) ∈ ws) by (apply list_elem_of_lookup; eauto).
    destruct (walk_elem c _ Hadv 0 ws ltac:(lia) W _ _ _ Hin) as (Hs & _ & ->).
    exists s, e.
    destruct (chunk_data_fields (slice (strip text) s e) (Z.of_nat i) sf s e md n Hmd)
      as (-> & -> & ->).
    repeat split; lia.
  - destruct (walk_final c _ Hadv Hov 0 ws ltac:(lia) W) as (s & Hs & Hlast & Hfin).
    rewrite last_lookup in Hlast.
    eexists; exists s. rewrite last_lookup, stamped_length, stamped_lookup, Hlast.
    simpl. split; [reflexivity|].
    destruct (chunk_data_fields (drop (Z.to_nat s) (strip text))
                (Z.of_nat (Init.Nat.pred (length ws))) sf s (s + CHUNK_SIZE c) md n Hmd)
      as (-> & -> & ->).
    repeat split; lia.
Qed.

Lemma chunk_text_covers_witness :
  exists chunks,
    chunk_text 12 (small_config 2) twelve_letters PNone None = Some chunks /\
    covering (small_config 2) (strip twelve_letters) chunks.
Proof.
  apply chunk_text_covers.
  - split; vm_compute; discriminate.
  - vm_compute; discriminate.
  - intros md' [=].
  - vm_compute; reflexivity.
  - vm_compute; lia.
Defined.

(** C6, as stated, fails: with [chunk_size = 10] and [overlap = 0] the text
    of twelve letters gives two chunks that do not overlap (the second
    starts where the first ends) and the last records end offset 20, while
    the text has length 12. *)
Lemma chunk_text_final_end_exceeds_text :
  exists a b,
    chunk_text 12 (small_config 0) twelve_letters PNone None = Some [a; b] /\
    int_field "end_char" a = Some 10 /\
    int_field "start_char" b = Some 10 /\
    int_field "end_char" b = Some 20 /\
    len (strip twelve_letters) = 12 /\
    int_field "end_char" b <> Some (len (strip twelve_letters)).
Proof.
  do 2 eexists. split; [vm_compute; reflexivity|].
  repeat split; try (vm_compute; reflexivity).
  vm_compute. discriminate.
Qed.

(** A window whose successor starts where the window itself started is
    visited again and again: no amount of fuel ends the loop. *)
Lemma windows_stuck c text start e ct :
  start < len text -> window c text start = (e, ct) ->
  e - CHUNK_OVERLAP c = start ->
  forall fuel, windows fuel c text start = None.
Proof.
  intros Hlt Hw Hback. induction fuel as [|fuel IH]; simpl; [reflexivity|].
  destruct (Z.ltb_spec start (len text)) as [_|?]; [|lia].
  rewrite Hw, Hback.
  destruct (Z.leb_spec (len text) start) as [?|_]; [lia|].
  now rewrite IH.
Qed.

(** C2 at the failing input: [chunk_size = 10], [overlap = 9] (so
    [0 <= overlap < chunk_size]) and a text whose ninth character is a
    space. The first window is cut after the space, at offset 9; the next
    start is 9 - 9 = 0 again, and the call never returns. *)
Theorem chunk_text_diverges :
  0 <= CHUNK_OVERLAP (small_config 9) < CHUNK_SIZE (small_config 9) /\
  fst (window (small_config 9) spaced_letters 0) - CHUNK_OVERLAP (small_config 9) = 0 /\
  forall fuel, chunk_text fuel (small_config 9) spaced_letters PNone None = None.
Proof.
  split; [vm_compute; split; [discriminate|reflexivity]|].
  split; [vm_compute; reflexivity|].
  intros fuel.
  rewrite chunk_text_long by (vm_compute; solve [reflexivity | discriminate]).
  replace (strip spaced_letters) with spaced_letters by (vm_compute; reflexivity).
  rewrite (windows_stuck (small_config 9) spaced_letters 0 9
             (snd (window (small_config 9) spaced_letters 0)));
    solve [reflexivity | vm_compute; reflexivity].
Qed.

End ChunkText.

(** ** VectorStore.add_documents *)
Section AddDocuments.
Context `{Runtime}.

Lemma append_metadata_ok chunks : forall st st',
  append_metadata chunks st = (Ok tt, st') ->
  index st' = index st /\
  length (metadata st') = (length (metadata st) + length chunks)%nat /\
  files st' = files st.
Proof.
  induction chunks as [|chunk chunks IH]; intros st st' Happ; simpl in Happ.
  - injection Happ as <-. simpl. repeat split; lia.
  - destruct (metadata_entry_of chunk) as [entry| |]; try discriminate.
    apply IH in Happ as (Hi & Hm & Hf). simpl in *.
    rewrite length_app in Hm. simpl in Hm. repeat split; solve [assumption | lia].
Qed.

Lemma append_metadata_outcome chunks : forall st,
  fst (append_metadata chunks st) <> OutOfFuel.
Proof.
  induction chunks as [|chunk chunks IH]; intros st; simpl; [discriminate|].
  unfold metadata_entry_of, bind_outcome.
  destruct (py_int _) as [ci|e|] eqn:Hci.
  - destruct (py_int (default (PInt 1) _)) as [tc|e|] eqn:Htc.
    + apply IH.
    + discriminate.
    + exfalso. revert Htc. unfold py_int.
      repeat (match goal with |- context [match ?x with _ => _ end] => destruct x end;
              try discriminate).
  - discriminate.
  - exfalso. revert Hci. unfold py_int.
    repeat (match goal with |- context [match ?x with _ => _ end] => destruct x end;
            try discriminate).
Qed.

Lemma array_width_uniform embeddings width :
  array_width embeddings = Ok width ->
  Forall (fun row => length row = width) embeddings.
Proof.
  destruct embeddings as [|row rest]; unfold array_width; [constructor|].
  match goal with |- context [forallb ?f rest] => destruct (forallb f rest) eqn:Hall end;
    [|discriminate].
  intros [= <-]. constructor; [reflexivity|].
  rewrite forallb_forall in Hall. apply Forall_forall. intros r Hr.
  apply Nat.eqb_eq, Hall. now apply list_elem_of_In.
Qed.

(** A call that returns keeps the index and the metadata list of equal
    length. *)
Lemma add_documents_returns chunks embeddings st st' :
  add_documents chunks embeddings st = (Ok tt, st') ->
  consistent st -> consistent st'.
Proof.
  unfold add_documents, consistent. intros Hadd Hst.
  destruct (_ || _); [now injection Hadd as <-|].
  destruct (Nat.eqb_spec (length chunks) (length embeddings)) as [Hlen|];
    [|discriminate].
  simpl in Hadd.
  destruct (array_width embeddings) as [width| |]; try discriminate.
  destruct (negb _); [discriminate|].
  destruct (append_metadata chunks _) as [[[]| |] st1] eqn:Happ; try discriminate.
  injection Hadd as <-.
  apply append_metadata_ok in Happ as (Hi & Hm & _). simpl in *.
  rewrite Hi, Hm, length_app. lia.
Qed.

(** What the validation at the head of [add_documents] does, for every
    pair of lists: a call with an empty list of either kind returns at once;
    two non-empty lists of different lengths are rejected with the
    count-mismatch error; lists of equal length holding a vector whose
    length is not 384 are rejected, with the dimension-mismatch error when
    the rows have one common length and with [np.array]'s error when they
    do not. In each case the store is left as it was. *)
Lemma add_documents_validation chunks embeddings st :
  (chunks = [] \/ embeddings = [] ->
     add_documents chunks embeddings st = (Ok tt, st)) /\
  (chunks <> [] -> embeddings <> [] -> length chunks <> length embeddings ->
     add_documents chunks embeddings st =
     (Raise (ValueError_count_mismatch (length chunks) (length embeddings)), st)) /\
  (chunks <> [] -> length chunks = length embeddings ->
   Exists (fun row => length row <> embedding_dim) embeddings ->
     exists e, add_documents chunks embeddings st = (Raise e, st) /\
       (e = ValueError_inhomogeneous_shape \/
        exists width, width <> embedding_dim /\
          e = ValueError_dimension_mismatch embedding_dim width)).
Proof.
  unfold add_documents. repeat split.
  - intros [-> | ->]; [reflexivity|].
    now rewrite orb_true_r.
  - intros Hc He Hlen.
    rewrite !bool_decide_eq_false_2 by assumption. simpl.
    destruct (Nat.eqb_spec (length chunks) (length embeddings)); [contradiction|].
    reflexivity.
  - intros Hc Hlen Hbad.
    assert (He : embeddings <> []).
    { intros ->. destruct chunks; [contradiction | discriminate]. }
    rewrite !bool_decide_eq_false_2 by assumption. simpl.
    rewrite Hlen, Nat.eqb_refl. simpl.
    destruct (array_width embeddings) as [width| |] eqn:Hw.
    + destruct (Nat.eqb_spec width embedding_dim) as [->|Hne]; simpl.
      * apply array_width_uniform in Hw.
        apply Exists_exists in Hbad as (row & Hin & Hrow).
        rewrite Forall_forall in Hw. now apply Hw in Hin.
      * eexists; split; [reflexivity|]. right. now exists width.
    + destruct embeddings as [|row rest]; [discriminate|].
      unfold array_width in Hw.
      match type of Hw with context [forallb ?f rest] => destruct (forallb f rest) end;
        [discriminate|]. injection Hw as <-.
      eexists; split; [reflexivity|]. now left.
    + destruct embeddings as [|row rest]; [discriminate|].
      unfold array_width in Hw.
      match type of Hw with context [forallb ?f rest] => destruct (forallb f rest) end;
        discriminate.
Qed.

End AddDocuments.

(** ** The store as a whole *)
Section StoreFacts.
Context `{Runtime}.

(** C1 at the failing input: chunks without any embedding. The lengths
    differ, yet the call returns normally (and changes nothing) instead of
    raising the count-mismatch error. *)
Theorem add_documents_without_embeddings chunk chunks st :
  length (chunk :: chunks) <> length (@nil vec) /\
  add_documents (chunk :: chunks) [] st = (Ok tt, st).
Proof. split; [discriminate | reflexivity]. Qed.

Lemma load_index_consistent d :
  match d with Saved rows records => length rows = length records | _ => True end ->
  consistent (_load_index d).
Proof. destruct d; simpl; intros Hd; unfold consistent; simpl; auto. Qed.

Lemma clear_collection_consistent st : consistent (clear_collection st).
Proof. reflexivity. Qed.

Lemma clear_collection_count st : get_collection_count (clear_collection st) = O.
Proof. reflexivity. Qed.

(** C5 at the failing input: one chunk whose [chunk_index] is [None], with
    one vector of the right dimension, added to a new store. The vector is
    appended to the index, then [int(None)] raises, and the store is left
    with one vector and no metadata record. *)
Theorem add_documents_breaks_consistency :
  let chunk := example_chunk (PStr (pystr_of "first")) PNone in
  let result := add_documents [chunk] [zero_vector] fresh_store in
  consistent fresh_store /\
  fst result = Raise (TypeError_int PNone) /\
  length (index (snd result)) = 1%nat /\
  length (metadata (snd result)) = 0%nat /\
  ~ consistent (snd result).
Proof.
  repeat split; try (vm_compute; reflexivity).
  unfold consistent. vm_compute. discriminate.
Qed.

Lemma coerce_extra_scalar value : is_scalar (coerce_extra value) = true.
Proof. unfold coerce_extra. now destruct (is_scalar value) eqn:E. Qed.

(** What a metadata record holds: the text as the chunk gives it, and
    scalar values under every additional key. *)
Lemma metadata_entry_of_fields chunk entry :
  metadata_entry_of chunk = Ok entry ->
  text entry = default (PStr []) (chunk !! "text") /\
  source_file entry =
    py_str (default (PStr (pystr_of "unknown")) (chunk !! "source_file")) /\
  map_Forall (fun _ value => is_scalar value = true) (extra entry).
Proof.
  unfold metadata_entry_of, bind_outcome.
  destruct (py_int _) as [ci| |]; try discriminate.
  destruct (py_int _) as [tc| |]; try discriminate.
  intros [= <-]. simpl. repeat split.
  intros key value. rewrite lookup_fmap.
  destruct (filter _ chunk !! key) as [v0|]; simpl; [|discriminate].
  intros [= <-]. apply coerce_extra_scalar.
Qed.

(** C10 at the failing input: a chunk whose [text] is [None]. The call
    succeeds and the record it appends holds [None] under [text]: the text
    is stored as it comes, without the [str] applied to [source_file]. *)
Theorem add_documents_stores_text_as_given :
  let chunk := example_chunk PNone (PInt 0) in
  let result := add_documents [chunk] [zero_vector] fresh_store in
  fst result = Ok tt /\
  List.map text (metadata (snd result)) = [PNone] /\
  is_scalar PNone = false.
Proof. repeat split; vm_compute; reflexivity. Qed.

End StoreFacts.

(** ** VectorStore.search_similar *)
Section SearchSimilar.

Lemma insert_ranked_perm x l : Permutation (insert_ranked x l) (x :: l).
Proof.
  induction l as [|y l IH]; simpl; [reflexivity|].
  destruct (Qle_bool (fst x) (fst y)); [reflexivity|].
  rewrite IH. apply perm_swap.
Qed.

Lemma rank_perm l : Permutation (rank l) l.
Proof.
  induction l as [|x l IH]; simpl; [reflexivity|].
  rewrite insert_ranked_perm. now constructor.
Qed.

Lemma ranked_ids rows query :
  Permutation
    (snd <$> rank (imap (fun i row => (l2_sqr query row, i)) rows))
    (seq 0 (length rows)).
Proof.
  rewrite rank_perm, fmap_imap.
  change (imap (fun n => snd ∘ (fun row : vec => (l2_sqr query row, n))) rows)
    with (imap (fun (j : nat) (_ : vec) => j) rows).
  rewrite (imap_seq_0 rows (fun j => j)). now rewrite list_fmap_id.
Qed.

Lemma format_results_ids records found :
  Forall (fun p : Q * nat => (p.2 < length records)%nat) found ->
  List.map hit_id (format_results records found) = snd <$> found.
Proof.
  induction 1 as [|[d idx] found Hidx _ IH]; simpl; [reflexivity|].
  destruct (lookup_lt_is_Some_2 records idx Hidx) as [entry ->].
  simpl. now rewrite IH.
Qed.

Lemma format_results_entry records found h :
  h ∈ format_results records found ->
  exists entry, records !! hit_id h = Some entry /\ hit_text h = text entry /\
    m_source_file (hit_metadata_ h) = source_file entry.
Proof.
  induction found as [|[d idx] found IH]; simpl; [intros Hin; inversion Hin|].
  destruct (records !! idx) as [entry|] eqn:Hidx; [|exact IH].
  intros [->|Hin]%elem_of_cons; [|now apply IH].
  exists entry. now repeat split.
Qed.

(** What a search with at least one requested result returns on a store
    whose index and metadata agree: the [min k n] best-ranked entries. *)
Lemma search_similar_hits c query top_k st :
  consistent st -> length query = embedding_dim ->
  1 <= requested c top_k ->
  let found :=
    take (Z.to_nat (Z.min (requested c top_k) (Z.of_nat (ntotal st))))
      (rank (imap (fun i row => (l2_sqr query row, i)) (index st))) in
  search_similar c query top_k st = Ok (format_results (metadata st) found) /\
  List.map hit_id (format_results (metadata st) found) = snd <$> found /\
  Z.of_nat (length found) = Z.min (requested c top_k) (Z.of_nat (ntotal st)).
Proof.
  intros Hst Hq Hk found.
  assert (Hlen : length (rank (imap (fun i row => (l2_sqr query row, i)) (index st)))
                 = ntotal st).
  { rewrite (Permutation_length (rank_perm _)). apply length_imap. }
  repeat split.
  - unfold search_similar. fold (requested c top_k).
    destruct (Nat.eqb_spec (ntotal st) 0) as [Hz|Hnz].
    + subst found. rewrite Hz. simpl. rewrite Z.min_r by lia. reflexivity.
    + rewrite Hq, Nat.eqb_refl. simpl. unfold index_search.
      destruct (Z.leb_spec (Z.min (requested c top_k) (Z.of_nat (ntotal st))) 0);
        [lia | reflexivity].
  - apply format_results_ids.
    apply Forall_forall. intros [d idx] Hin. simpl.
    assert (Hidx : idx ∈ seq 0 (ntotal st)).
    { unfold ntotal. rewrite <- (ranked_ids (index st) query).
      apply list_elem_of_fmap. exists (d, idx). split; [reflexivity|].
      eapply subseteq_take, Hin. }
    apply elem_of_seq in Hidx. rewrite <- Hst. unfold ntotal in Hidx. lia.
  - subst found. rewrite length_take, Hlen. lia.
Qed.

(** C3. On a store of [n] entries and for a query of dimension 384:
    an empty index gives the empty list for every query, without error;
    otherwise the index is asked for [min k n] results; fewer than [k]
    entries come back when [n < k]; and when [k >= n] all [n] entries
    come back, each once, with the text of its metadata record. *)
Theorem search_similar_count c query top_k st n :
  ntotal st = n -> length (metadata st) = n ->
  length query = embedding_dim ->
  let k := requested c top_k in
  (n = 0%nat -> forall query' top_k',
     search_similar c query' top_k' st = Ok []) /\
  (n <> 0%nat ->
     search_similar c query top_k st =
     bind_outcome (index_search (index st) query (Z.min k (Z.of_nat n)))
       (fun found => Ok (format_results (metadata st) found))) /\
  (Z.of_nat n < k ->
     exists hits, search_similar c query top_k st = Ok hits /\
       length hits = n /\ Z.of_nat (length hits) < k) /\
  (Z.of_nat n <= k ->
     exists hits, search_similar c query top_k st = Ok hits /\
       Permutation (List.map hit_id hits) (seq 0 n) /\
       forall h, h ∈ hits ->
         exists entry, metadata st !! hit_id h = Some entry /\
           hit_text h = text entry).
Proof.
  intros Hn Hm Hq k.
  assert (Hst : consistent st) by (unfold consistent, ntotal in *; congruence).
  assert (Hall : Z.of_nat n <= k ->
     exists hits, search_similar c query top_k st = Ok hits /\
       Permutation (List.map hit_id hits) (seq 0 n) /\
       forall h, h ∈ hits ->
         exists entry, metadata st !! hit_id h = Some entry /\
           hit_text h = text entry).
  { intros Hk. destruct (Nat.eq_dec n 0%nat) as [->|Hnz].
    - exists []. unfold search_similar. rewrite Hn. simpl.
      repeat split; [constructor | intros h Hh; inversion Hh].
    - destruct (search_similar_hits c query top_k st Hst Hq) as (Hres & Hids & _);
        [fold k; lia|].
      eexists; split; [exact Hres|]. split.
      + rewrite Hids, take_ge.
        * rewrite <- Hn. apply ranked_ids.
        * rewrite (Permutation_length (rank_perm _)), length_imap.
          fold k. unfold ntotal in *. lia.
      + intros h Hh. apply format_results_entry in Hh as (entry & ? & ? & _).
        eauto. }
  split; [|split; [|split]].
  - intros -> query' top_k'. unfold search_similar. now rewrite Hn.
  - intros Hnz. unfold search_similar. fold (requested c top_k). fold k.
    rewrite Hn. destruct (Nat.eqb_spec n 0) as [?|_]; [contradiction|].
    now rewrite Hq, Nat.eqb_refl.
  - intros Hk. destruct Hall as (hits & Hres & Hperm & _); [lia|].
    exists hits. split; [exact Hres|].
    apply Permutation_length in Hperm.
    rewrite length_map, length_seq in Hperm. lia.
  - exact Hall.
Qed.

Lemma search_similar_count_witness :
  ntotal two_chunk_store = 2%nat /\
  length (metadata two_chunk_store) = 2%nat /\
  length unit_vector = embedding_dim /\
  exists hits,
    search_similar default_config unit_vector None two_chunk_store = Ok hits /\
    length hits = 2%nat /\ Z.of_nat (length hits) < 3.
Proof.
  split; [vm_compute; reflexivity|].
  split; [vm_compute; reflexivity|].
  split; [vm_compute; reflexivity|].
  apply (search_similar_count default_config unit_vector None two_chunk_store 2);
    vm_compute; reflexivity.
Defined.

End SearchSimilar.

(** ** RAGService.get_recommendations: parsing the generated text *)
Section ParseRecommendations.
Context `{Runtime}.

Lemma strip_len s : len (strip s) <= len s.
Proof. pose proof (strip_length s). unfold len. lia. Qed.

Lemma lstrip_chars_len chars s : len (lstrip_chars chars s) <= len s.
Proof.
  pose proof (lstrip_with_length (char_in chars) s).
  unfold lstrip_chars, len. lia.
Qed.

Lemma startswith_single s ch :
  startswith s [ch] = match s with c0 :: _ => N.eqb c0 ch | [] => false end.
Proof.
  unfold startswith, str_eqb. destruct s as [|c0 s]; [reflexivity|].
  cbn [length take]. rewrite take_0.
  destruct (N.eqb_spec c0 ch) as [->|Hne].
  - now apply bool_decide_eq_true_2.
  - apply bool_decide_eq_false_2. congruence.
Qed.

(** The test of lines 277-278 agrees with [starts_with_marker] except on a
    digit followed by ['.'] or [')'] and nothing else. *)
Lemma is_list_item_marker line :
  is_list_item line = starts_with_marker line \/
  (is_list_item line = false /\ len line <= 2).
Proof.
  unfold is_list_item, starts_with_marker. rewrite !startswith_single.
  destruct line as [|c0 [|c1 [|c2 rest]]].
  - now left.
  - left. unfold str_eqb. rewrite bool_decide_eq_false_2 by discriminate.
    simpl. now rewrite andb_false_r.
  - destruct (N.eqb c0 45 || N.eqb c0 8226 || N.eqb c0 42) eqn:Hb.
    + left. unfold str_eqb. now rewrite bool_decide_eq_false_2 by discriminate.
    + right. unfold str_eqb. rewrite bool_decide_eq_false_2 by discriminate.
      split; [reflexivity | unfold len; simpl; lia].
  - left. unfold str_eqb. rewrite bool_decide_eq_false_2 by discriminate.
    simpl. replace (2 <? len (c0 :: c1 :: c2 :: rest)) with true; [reflexivity|].
    symmetry. apply Z.ltb_lt. unfold len. simpl. lia.
Qed.

Lemma parse_line_spec recommendations_ line :
  parse_line recommendations_ line =
  recommendations_ ++ option_list (recommendation_of_line line).
Proof.
  unfold parse_line, recommendation_of_line.
  set (l := strip line). set (rec := strip (lstrip_chars marker_chars l)).
  assert (Hshort : len l <= 2 -> (10 <? len rec) = false).
  { intros Hl. apply Z.ltb_ge. subst rec.
    pose proof (strip_len (lstrip_chars marker_chars l)).
    pose proof (lstrip_chars_len marker_chars l). lia. }
  assert (Hnonempty : (10 <? len rec) = true -> str_eqb rec [] = false).
  { intros Hlen. apply Z.ltb_lt in Hlen. unfold str_eqb.
    apply bool_decide_eq_false_2. intros E. rewrite E in Hlen.
    unfold len in Hlen. simpl in Hlen. lia. }
  destruct (is_list_item_marker l) as [->|[-> Hl]].
  - destruct (starts_with_marker l); [|now rewrite app_nil_r].
    destruct (10 <? len rec) eqn:Hlen.
    + rewrite Hnonempty by reflexivity. simpl.
      destruct (contains _ _); simpl; [now rewrite app_nil_r | reflexivity].
    + rewrite andb_false_r. simpl. now rewrite app_nil_r.
  - rewrite (Hshort Hl). simpl.
    destruct (starts_with_marker l); simpl; now rewrite app_nil_r.
Qed.

Lemma fold_parse_line lines : forall recommendations_,
  fold_left parse_line lines recommendations_ =
  recommendations_ ++ omap recommendation_of_line lines.
Proof.
  induction lines as [|line lines IH]; intros acc; simpl.
  - now rewrite app_nil_r.
  - rewrite IH, parse_line_spec, <- app_assoc. f_equal.
    now destruct (recommendation_of_line line).
Qed.

(** C7, as the code has it. The recommendations are the texts that the
    lines of the response contribute, in order ([recommendation_of_line]:
    a line that starts with a marker, stripped of its leading marker
    characters and of surrounding whitespace, longer than 10 characters and
    free of "disclaimer"), or the single fallback sentence when no line
    contributes; no recommendation of 10 characters or fewer is returned. *)
Theorem parse_recommendations_spec full_response :
  let kept := omap recommendation_of_line (split_lines full_response) in
  parse_recommendations full_response =
    (if bool_decide (kept = []) then [fallback_recommendation] else kept) /\
  (forall rec, rec ∈ kept ->
     exists line, line ∈ split_lines full_response /\
       starts_with_marker (strip line) = true /\
       rec = strip (lstrip_chars marker_chars (strip line)) /\
       contains (pystr_of "disclaimer") (lower rec) = false) /\
  (forall rec, rec ∈ parse_recommendations full_response -> 10 < len rec).
Proof.
  intros kept.
  assert (Heq : parse_recommendations full_response =
    (if bool_decide (kept = []) then [fallback_recommendation] else kept)).
  { unfold parse_recommendations. now rewrite fold_parse_line. }
  assert (Hkept : forall rec, rec ∈ kept ->
     exists line, line ∈ split_lines full_response /\
       recommendation_of_line line = Some rec).
  { intros rec Hin. apply list_elem_of_omap in Hin as (line & ? & ?). eauto. }
  split; [exact Heq|]. split.
  - intros rec Hin. destruct (Hkept rec Hin) as (line & Hline & Hrec).
    exists line. split; [assumption|].
    unfold recommendation_of_line in Hrec.
    destruct (starts_with_marker (strip line)); [|discriminate].
    destruct (10 <? len _); [|discriminate]. simpl in Hrec.
    destruct (contains _ _) eqn:Hc; [discriminate|]. simpl in Hrec.
    injection Hrec as <-. now repeat split.
  - intros rec. rewrite Heq. case_bool_decide.
    + intros ->%list_elem_of_singleton. vm_compute. reflexivity.
    + intros Hin. destruct (Hkept rec Hin) as (line & _ & Hrec).
      unfold recommendation_of_line in Hrec.
      destruct (starts_with_marker (strip line)); [|discriminate].
      destruct (Z.ltb_spec 10 (len (strip (lstrip_chars marker_chars (strip line)))));
        [|discriminate].
      simpl in Hrec. destruct (contains _ _); [discriminate|].
      simpl in Hrec. now injection Hrec as <-.
Qed.

End ParseRecommendations.

(** C7, as stated, fails: the line ["- abcdefghij"] starts with a bullet
    and leaves, once the marker is stripped, a text of exactly 10
    characters without "disclaimer"; it is dropped, and the result is the
    fallback sentence. *)
Lemma ten_character_recommendation_dropped :
  let response := pystr_of "- abcdefghij" in
  let rec := strip (lstrip_chars marker_chars (strip response)) in
  is_list_item (strip response) = true /\
  rec = pystr_of "abcdefghij" /\
  len rec = 10 /\
  contains (pystr_of "disclaimer") (lower rec) = false /\
  parse_recommendations response = [fallback_recommendation] /\
  ~ rec ∈ parse_recommendations response.
Proof.
  repeat split; try (vm_compute; reflexivity).
  intros Hin. vm_compute in Hin.
  apply list_elem_of_singleton in Hin. discriminate.
Qed.

(** ** RAGService.query *)
Section Query.
Context `{Runtime}.

Lemma first_seen_filter (P : str -> Prop) `{forall x, Decision (P x)} names :
  first_seen (filter P names) = filter P (first_seen names).
Proof.
  induction names as [|name rest IH]; [reflexivity|]. simpl.
  destruct (decide (P name)) as [HP|HP].
  - rewrite !filter_cons_True by assumption. simpl. rewrite IH.
    f_equal. rewrite !list_filter_filter. apply list_filter_iff. tauto.
  - rewrite !filter_cons_False by assumption. rewrite IH.
    rewrite list_filter_filter. apply list_filter_iff.
    intros x. split; [|tauto]. intros HPx. split; [assumption|]. congruence.
Qed.

Lemma first_seen_elem names x : x ∈ first_seen names <-> x ∈ names.
Proof.
  induction names as [|name rest IH]; simpl; [reflexivity|].
  rewrite !elem_of_cons, list_elem_of_filter, IH.
  destruct (decide (x = name)); tauto.
Qed.

Lemma first_seen_NoDup names : NoDup (first_seen names).
Proof.
  induction names as [|name rest IH]; simpl; constructor.
  - rewrite list_elem_of_filter. tauto.
  - now apply NoDup_filter.
Qed.

Lemma filter_everything (P : str -> Prop) `{forall x, Decision (P x)}
    (names : list str) :
  (forall x, P x) -> filter P names = names.
Proof.
  intros HP. induction names as [|name rest IH]; [reflexivity|].
  rewrite filter_cons_True by apply HP. now rewrite IH.
Qed.

(** The sources kept by the loop of lines 117-124. *)
Lemma collect_sources similar_chunks : forall context_parts sources_,
  snd (fold_left collect_chunk similar_chunks (context_parts, sources_)) =
  sources_ ++
    first_seen (filter (fun name => name ∉ sources_)
                  (List.map source_of similar_chunks)).
Proof.
  induction similar_chunks as [|chunk rest IH]; intros parts seen; simpl.
  - now rewrite app_nil_r.
  - fold (source_of chunk). case_bool_decide as Hseen.
    + rewrite IH. now rewrite filter_cons_False by tauto.
    + rewrite IH, filter_cons_True by assumption. simpl.
      rewrite <- app_assoc. simpl. do 2 f_equal.
      rewrite <- first_seen_filter. f_equal.
      rewrite list_filter_filter. apply list_filter_iff.
      intros x. rewrite elem_of_app, list_elem_of_singleton. tauto.
Qed.

Lemma answer_prompt_sources question similar_chunks :
  snd (answer_prompt question similar_chunks) =
  first_seen (List.map source_of similar_chunks).
Proof.
  unfold answer_prompt.
  destruct similar_chunks as [|chunk rest]; [reflexivity|].
  replace (0 <? len (chunk :: rest)) with true
    by (symmetry; apply Z.ltb_lt; unfold len; simpl; lia).
  unfold collect.
  pose proof (collect_sources (chunk :: rest) [] []) as Hsrc.
  rewrite filter_everything in Hsrc by (intros x; apply not_elem_of_nil).
  destruct (fold_left collect_chunk (chunk :: rest) ([], [])) as [parts srcs].
  exact Hsrc.
Qed.

(** After the retrieval, [query] always returns: the generator's answer
    or the text of the exception it raised. *)
Lemma answer_question_returns e question st embedding hits :
  generate_embedding e question = Returned embedding ->
  search_similar (cfg e) embedding None st = Ok hits ->
  exists result,
    answer_question e question st = (Ok result, st) /\
    has_records result = (0 <? len hits) /\
    sources result = snd (answer_prompt question hits) /\
    recommendations result = [] /\
    match _call_gemini_api e (fst (answer_prompt question hits)) with
    | Returned full_response => answer result = strip full_response
    | Raised err =>
        answer result = pystr_of "Error generating answer: " ++ exn_message err
    end.
Proof.
  intros Hemb Hsearch. unfold answer_question, bind, lift, try_except, ret.
  rewrite Hemb. simpl. rewrite Hsearch.
  destruct (answer_prompt question hits) as [prompt_ sources_]. simpl.
  destruct (_call_gemini_api e prompt_) as [full_response|err]; simpl;
    eexists; (split; [reflexivity|]); simpl; repeat split.
Qed.

Lemma query_non_empty fuel e question st :
  get_collection_count st <> 0%nat ->
  query fuel e question st = answer_question e question st.
Proof.
  intros Hcount. unfold query, bind.
  now destruct (Nat.eqb_spec (get_collection_count st) 0).
Qed.

(** C4. On a non-empty index, once the question is embedded and the
    nearest chunks are retrieved, [query] returns a result whose grounded
    flag tells whether any chunk was retrieved, whose sources are the
    chunks' source files without duplicates in the order first seen, and
    whose recommendations are empty. *)
Theorem query_result_of_retrieval fuel e question st embedding hits :
  get_collection_count st <> 0%nat ->
  generate_embedding e question = Returned embedding ->
  search_similar (cfg e) embedding None st = Ok hits ->
  exists result,
    query fuel e question st = (Ok result, st) /\
    (has_records result = true <-> (1 <= length hits)%nat) /\
    sources result = first_seen (List.map source_of hits) /\
    NoDup (sources result) /\
    (forall name, name ∈ sources result <->
       exists h, h ∈ hits /\ source_of h = name) /\
    recommendations result = [].
Proof.
  intros Hcount Hemb Hsearch.
  destruct (answer_question_returns e question st embedding hits Hemb Hsearch)
    as (result & Hres & Hflag & Hsrc & Hrec & _).
  exists result. rewrite query_non_empty by assumption.
  rewrite answer_prompt_sources in Hsrc.
  split; [exact Hres|]. split; [|split; [exact Hsrc|split; [|split; [|exact Hrec]]]].
  - rewrite Hflag, Z.ltb_lt. unfold len. lia.
  - rewrite Hsrc. apply first_seen_NoDup.
  - intros name. rewrite Hsrc, first_seen_elem.
    rewrite map_fmap, list_elem_of_fmap.
    split; intros (h & ? & ?); exists h; split; auto.
Qed.

Lemma recommendations_return e question context_from_records st embedding hits :
  generate_embedding e question = Returned embedding ->
  search_similar (cfg e) embedding None st = Ok hits ->
  exists result,
    get_recommendations e question context_from_records st = (Ok result, st) /\
    match _call_gemini_api e
            (fst (recommend_prompt e question context_from_records hits)) with
    | Returned full_response =>
        rec_recommendations result = parse_recommendations full_response
    | Raised err =>
        rec_recommendations result =
          [pystr_of "Error generating recommendations: " ++ exn_message err]
    end.
Proof.
  intros Hemb Hsearch. unfold get_recommendations, bind, lift, try_except, ret.
  rewrite Hemb. simpl. rewrite Hsearch.
  destruct (recommend_prompt e question context_from_records hits)
    as [prompt_ sources_]. simpl.
  destruct (_call_gemini_api e prompt_) as [full_response|err]; simpl;
    eexists; (split; [reflexivity|]); reflexivity.
Qed.

Lemma summary_returns fuel e st :
  get_collection_count st <> 0%nat ->
  exists summary,
    get_summary fuel e st = (Ok summary, st) /\
    (strip (read_all_records e) <> [] ->
     match _call_gemini_api e (Summarize (read_all_records e)) with
     | Returned generated => summary = generated
     | Raised err =>
         summary = pystr_of "Error generating summary: "
                   ++ pystr_of "Error generating summary: " ++ exn_message err
     end).
Proof.
  intros Hcount. unfold get_summary, bind.
  destruct (Nat.eqb_spec (get_collection_count st) 0) as [?|_]; [contradiction|].
  unfold str_eqb. case_bool_decide as Hempty.
  - eexists; split; [reflexivity|]. intros Hne. contradiction.
  - unfold try_except, lift, ret, summarize_medical_records, str_eqb.
    rewrite bool_decide_eq_false_2 by assumption.
    destruct (_call_gemini_api e (Summarize (read_all_records e)))
      as [generated|err]; simpl; eexists; (split; [reflexivity|]); reflexivity.
Qed.

(** An exception of the embedder or of the search leaves [query] and
    [get_recommendations] as it is. *)
Lemma retrieval_failures_propagate fuel e question context_from_records st err :
  get_collection_count st <> 0%nat ->
  generate_embedding e question = Raised err \/
  (exists embedding, generate_embedding e question = Returned embedding /\
     search_similar (cfg e) embedding None st = Raise err) ->
  query fuel e question st = (Raise err, st) /\
  get_recommendations e question context_from_records st = (Raise err, st).
Proof.
  intros Hcount Hfail. rewrite query_non_empty by assumption.
  unfold answer_question, get_recommendations, bind, lift.
  destruct Hfail as [-> | (embedding & -> & Hsearch)]; simpl;
    [|rewrite Hsearch]; split; reflexivity.
Qed.

(** C8, as the code has it. On a non-empty index, once the embedder and
    the search have returned, [query], [get_recommendations] and
    [get_summary] return a result whatever the generator does: its text, or
    a description of the exception it raised. *)
Theorem generator_failures_are_reported
    fuel e question context_from_records st embedding hits :
  get_collection_count st <> 0%nat ->
  generate_embedding e question = Returned embedding ->
  search_similar (cfg e) embedding None st = Ok hits ->
  (exists result,
     query fuel e question st = (Ok result, st) /\
     forall err,
       _call_gemini_api e (fst (answer_prompt question hits)) = Raised err ->
       answer result = pystr_of "Error generating answer: " ++ exn_message err) /\
  (exists result,
     get_recommendations e question context_from_records st = (Ok result, st) /\
     forall err,
       _call_gemini_api e
         (fst (recommend_prompt e question context_from_records hits)) = Raised err ->
       rec_recommendations result =
         [pystr_of "Error generating recommendations: " ++ exn_message err]) /\
  (exists summary,
     get_summary fuel e st = (Ok summary, st) /\
     forall err,
       strip (read_all_records e) <> [] ->
       _call_gemini_api e (Summarize (read_all_records e)) = Raised err ->
       summary = pystr_of "Error generating summary: "
                 ++ pystr_of "Error generating summary: " ++ exn_message err).
Proof.
  intros Hcount Hemb Hsearch. split; [|split].
  - destruct (answer_question_returns e question st embedding hits Hemb Hsearch)
      as (result & Hres & _ & _ & _ & Hans).
    exists result. rewrite query_non_empty by assumption.
    split; [exact Hres|]. intros err Herr. now rewrite Herr in Hans.
  - destruct (recommendations_return e question context_from_records st
                embedding hits Hemb Hsearch) as (result & Hres & Hrec).
    exists result. split; [exact Hres|]. intros err Herr. now rewrite Herr in Hrec.
  - destruct (summary_returns fuel e st Hcount) as (summary & Hres & Hsum).
    exists summary. split; [exact Hres|]. intros err Hne Herr.
    specialize (Hsum Hne). now rewrite Herr in Hsum.
Qed.

(** On a store whose index and metadata agree and that holds at least one
    entry, with [TOP_K_CHUNKS] at least 1, every result of [query] is
    flagged as grounded, whatever the question. *)
Lemma query_grounded_on_non_empty_index fuel e question st result st' :
  consistent st -> get_collection_count st <> 0%nat ->
  1 <= TOP_K_CHUNKS (cfg e) ->
  query fuel e question st = (Ok result, st') ->
  has_records result = true.
Proof.
  intros Hst Hcount Hk. rewrite query_non_empty by assumption. intros Hq.
  destruct (generate_embedding e question) as [embedding|err] eqn:Hemb;
    [|unfold answer_question, bind, lift in Hq; rewrite Hemb in Hq; discriminate].
  destruct (search_similar (cfg e) embedding None st) as [hits| |] eqn:Hsearch;
    try (unfold answer_question, bind, lift in Hq; rewrite Hemb in Hq;
         simpl in Hq; rewrite Hsearch in Hq; discriminate).
  destruct (answer_question_returns e question st embedding hits Hemb Hsearch)
    as (result' & Hres & Hflag & _).
  rewrite Hres in Hq. injection Hq as <- _. rewrite Hflag.
  assert (Hdim : length embedding = embedding_dim).
  { unfold search_similar in Hsearch.
    destruct (Nat.eqb_spec (ntotal st) 0) as [?|_]; [contradiction|].
    destruct (Nat.eqb_spec (length embedding) embedding_dim); [assumption|].
    discriminate. }
  destruct (search_similar_hits (cfg e) embedding None st Hst Hdim Hk)
    as (Hres' & Hids & Hlen).
  rewrite Hres' in Hsearch. injection Hsearch as <-.
  unfold requested in Hids, Hlen.
  apply Z.ltb_lt. unfold len.
  rewrite <- (length_map hit_id), Hids, length_fmap.
  unfold get_collection_count in Hcount. simpl in Hlen. lia.
Qed.

(** C9, as the code has it. With an empty index and an ingestion that
    ends without success (no documents, or no chunks), [query] returns the
    fixed result: the grounded flag is false, the answer is the non-empty
    sentence asking for records; an empty corpus directory is such a case.
    On a non-empty index every result is flagged as grounded. *)
Theorem query_ungrounded_without_data fuel e question st :
  (forall ingest_result_ st1,
     get_collection_count st = 0%nat ->
     ingest_documents fuel e false st = (Ok ingest_result_, st1) ->
     status ingest_result_ <> success ->
     query fuel e question st = (Ok no_access_result, st1)) /\
  (get_collection_count st = 0%nat -> get_records_with_metadata e = [] ->
     query fuel e question st = (Ok no_access_result, st)) /\
  has_records no_access_result = false /\
  answer no_access_result <> [] /\
  (forall result st',
     consistent st -> get_collection_count st <> 0%nat ->
     1 <= TOP_K_CHUNKS (cfg e) ->
     query fuel e question st = (Ok result, st') ->
     has_records result = true).
Proof.
  split; [|split; [|split; [|split]]].
  - intros ir st1 Hcount Hing Hstatus. unfold query, bind.
    rewrite Hcount. simpl. rewrite Hing.
    destruct (status ir); [contradiction | reflexivity | reflexivity].
  - intros Hcount Hrecords. unfold query, bind at 1.
    rewrite Hcount. simpl. unfold ingest_documents, bind. simpl.
    rewrite Hrecords. reflexivity.
  - reflexivity.
  - discriminate.
  - intros result st'. apply query_grounded_on_non_empty_index.
Qed.

End Query.

(** ** The orchestrator on concrete collaborators *)
Section QueryExamples.

Lemma query_result_of_retrieval_witness :
  exists result,
    query 0 (example_env (Returned unit_vector)
               (Returned (pystr_of "Your blood pressure is normal.")))
      example_question two_chunk_store = (Ok result, two_chunk_store) /\
    has_records result = true /\
    sources result = [pystr_of "unknown"] /\
    recommendations result = [].
Proof.
  destruct (query_result_of_retrieval 0
              (example_env (Returned unit_vector)
                 (Returned (pystr_of "Your blood pressure is normal.")))
              example_question two_chunk_store unit_vector example_hits)
    as (result & Hq & Hflag & Hsrc & _ & _ & Hrec).
  - vm_compute. discriminate.
  - reflexivity.
  - vm_compute. reflexivity.
  - exists result. split; [exact Hq|]. split; [|split; [|exact Hrec]].
    + apply Hflag. vm_compute. lia.
    + rewrite Hsrc. vm_compute. reflexivity.
Defined.

Lemma generator_failures_are_reported_witness :
  let e := example_env (Returned unit_vector) (Raised quota_exceeded) in
  (exists result,
     query 0 e example_question two_chunk_store = (Ok result, two_chunk_store) /\
     answer result = pystr_of "Error generating answer: API quota exceeded") /\
  (exists result,
     get_recommendations e example_question true two_chunk_store
       = (Ok result, two_chunk_store) /\
     rec_recommendations result =
       [pystr_of "Error generating recommendations: API quota exceeded"]) /\
  (exists summary, get_summary 0 e two_chunk_store = (Ok summary, two_chunk_store)).
Proof.
  intros e.
  destruct (generator_failures_are_reported 0 e example_question true
              two_chunk_store unit_vector example_hits)
    as ((r1 & Hq & Ha) & (r2 & Hr & Hb) & (s & Hs & _)).
  - vm_compute. discriminate.
  - reflexivity.
  - vm_compute. reflexivity.
  - split; [|split].
    + exists r1. split; [exact Hq|]. now rewrite (Ha quota_exceeded).
    + exists r2. split; [exact Hr|]. now rewrite (Hb quota_exceeded).
    + exists s. exact Hs.
Defined.

(** C8, as stated, fails: an exception of the embedder leaves [query] and
    [get_recommendations] as it is, and so it does [ingest_documents] and a
    [get_summary] that has to ingest first; a vector of the wrong dimension
    makes [ingest_documents] raise the store's error. *)
Lemma embedder_failure_escapes :
  let e := example_env (Raised model_not_loaded) (Returned (pystr_of "ok")) in
  query 0 e example_question two_chunk_store
    = (Raise model_not_loaded, two_chunk_store) /\
  get_recommendations e example_question true two_chunk_store
    = (Raise model_not_loaded, two_chunk_store) /\
  ingest_documents 0 (checkup_env (Raised model_not_loaded)) false fresh_store
    = (Raise model_not_loaded, fresh_store) /\
  get_summary 0 (checkup_env (Raised model_not_loaded)) fresh_store
    = (Raise model_not_loaded, fresh_store) /\
  ingest_documents 0 (checkup_env (Returned [[1%Q]])) false fresh_store
    = (Raise (ValueError_dimension_mismatch 384 1), fresh_store).
Proof. repeat split; vm_compute; reflexivity. Qed.

(** C9, as stated, fails: the store holds the two chunks "first" and
    "second"; the question has nothing in common with them and its
    embedding is far from both vectors; the result is flagged as grounded
    all the same, citing the chunks' source. *)
Lemma unrelated_question_is_grounded :
  let e := example_env (Returned far_vector)
             (Returned (pystr_of "This information is not found in your medical records.")) in
  List.map text (metadata two_chunk_store)
    = [PStr (pystr_of "first"); PStr (pystr_of "second")] /\
  exists result,
    query 0 e example_question two_chunk_store = (Ok result, two_chunk_store) /\
    has_records result = true /\
    sources result = [pystr_of "unknown"] /\
    has_records result <> false.
Proof.
  split; [vm_compute; reflexivity|].
  eexists. split; [vm_compute; reflexivity|].
  repeat split; try reflexivity. discriminate.
Qed.

End QueryExamples.

(** * Further properties of the code *)

(** ** The vector store: appending, failing, restarting *)
Section StoreLifecycle.
Context `{Runtime}.

(** Whatever its outcome, the metadata loop leaves the index and the files
    alone and only appends records. *)
Lemma append_metadata_run chunks : forall st,
  index (snd (append_metadata chunks st)) = index st /\
  files (snd (append_metadata chunks st)) = files st /\
  exists entries,
    metadata (snd (append_metadata chunks st)) = metadata st ++ entries /\
    (length entries <= length chunks)%nat.
Proof.
  induction chunks as [|chunk chunks IH]; intros st; simpl.
  - repeat split. exists []. now rewrite app_nil_r.
  - destruct (metadata_entry_of chunk) as [entry| |]; simpl.
    + destruct (IH {| index := index st; metadata := metadata st ++ [entry];
                      files := files st |}) as (Hi & Hf & entries & Hm & Hlen).
      simpl in *. repeat split; [assumption | assumption |].
      exists (entry :: entries). rewrite Hm, <- app_assoc. simpl. split; [reflexivity | simpl; lia].
    + repeat split. exists []. rewrite app_nil_r. split; [reflexivity | simpl; lia].
    + repeat split. exists []. rewrite app_nil_r. split; [reflexivity | simpl; lia].
Qed.

Lemma append_metadata_entries chunks : forall st st',
  append_metadata chunks st = (Ok tt, st') ->
  exists entries,
    metadata st' = metadata st ++ entries /\
    Forall2 (fun chunk entry => metadata_entry_of chunk = Ok entry) chunks entries.
Proof.
  induction chunks as [|chunk chunks IH]; intros st st' Happ; simpl in Happ.
  - injection Happ as <-. exists []. rewrite app_nil_r. split; [reflexivity | constructor].
  - destruct (metadata_entry_of chunk) as [entry| |] eqn:Hentry; try discriminate.
    apply IH in Happ as (entries & Hm & Hall). simpl in Hm.
    exists (entry :: entries). rewrite Hm, <- app_assoc. split; [reflexivity|].
    now constructor.
Qed.

(** X1. A call of [add_documents] with chunks and vectors that returns has
    appended the vectors to the index in the order given and one metadata
    record per chunk, in the same order, after the records already there;
    the lists had equal length and every vector had 384 components. *)
Theorem add_documents_appends chunks embeddings st st' :
  chunks <> [] -> embeddings <> [] ->
  add_documents chunks embeddings st = (Ok tt, st') ->
  length chunks = length embeddings /\
  Forall (fun row => length row = embedding_dim) embeddings /\
  index st' = index st ++ embeddings /\
  (exists entries,
     metadata st' = metadata st ++ entries /\
     Forall2 (fun chunk entry => metadata_entry_of chunk = Ok entry)
       chunks entries) /\
  get_collection_count st' = (get_collection_count st + length chunks)%nat.
Proof.
  intros Hc He. unfold add_documents.
  rewrite !bool_decide_eq_false_2 by assumption. simpl.
  destruct (Nat.eqb_spec (length chunks) (length embeddings)) as [Hlen|];
    [|discriminate]. simpl.
  destruct (array_width embeddings) as [width| |] eqn:Hw; try discriminate.
  destruct (Nat.eqb_spec width embedding_dim) as [->|]; [|discriminate]. simpl.
  destruct (append_metadata chunks _) as [[[]| |] st1] eqn:Happ; try discriminate.
  intros [= <-].
  pose proof (append_metadata_run chunks
                {| index := index st ++ embeddings; metadata := metadata st;
                   files := files st |}) as (Hi & _ & _).
  rewrite Happ in Hi. simpl in Hi.
  apply append_metadata_entries in Happ. simpl in Happ.
  split; [assumption|]. split; [now apply array_width_uniform|].
  split; [exact Hi|]. split; [exact Happ|].
  unfold get_collection_count, ntotal. simpl. rewrite Hi, length_app. lia.
Qed.

(** X2. A call of [add_documents] that raises, at the validation or inside
    the metadata loop, has written nothing to the files: a restart after it
    loads exactly what a restart before it would have loaded. In memory the
    index and the metadata list can only have grown. *)
Theorem add_documents_failure_keeps_files chunks embeddings st e st' :
  add_documents chunks embeddings st = (Raise e, st') ->
  files st' = files st /\
  _load_index (files st') = _load_index (files st) /\
  index st `prefix_of` index st' /\
  metadata st `prefix_of` metadata st'.
Proof.
  unfold add_documents. intros Hadd.
  assert (Hsame : st' = st -> files st' = files st /\
            _load_index (files st') = _load_index (files st) /\
            index st `prefix_of` index st' /\ metadata st `prefix_of` metadata st')
    by (intros ->; repeat split; reflexivity).
  destruct (_ || _); [discriminate|].
  destruct (negb (Nat.eqb _ _)); [injection Hadd as _ <-; now apply Hsame|].
  destruct (array_width embeddings) as [width| |];
    [|injection Hadd as _ <-; now apply Hsame|discriminate].
  destruct (negb (Nat.eqb _ _)); [injection Hadd as _ <-; now apply Hsame|].
  pose proof (append_metadata_run chunks
                {| index := index st ++ embeddings; metadata := metadata st;
                   files := files st |}) as (Hi & Hf & entries & Hm & _).
  destruct (append_metadata chunks _) as [[[]| |] st1] eqn:Happ; try discriminate.
  injection Hadd as _ <-. simpl in *.
  rewrite Hf, Hi, Hm. repeat split; now eexists.
Qed.

(** X3. What [add_documents] and [clear_collection] leave in the files is
    what they leave in memory: after a call with chunks and vectors that
    returns, or after a clear, a restart gives a store with the same index
    and metadata, hence the same count and the same answer to every
    search. *)
Theorem restart_after_mutation chunks embeddings st st' :
  (chunks <> [] /\ embeddings <> [] /\
   add_documents chunks embeddings st = (Ok tt, st')) \/
  st' = clear_collection st ->
  index (_load_index (files st')) = index st' /\
  metadata (_load_index (files st')) = metadata st' /\
  get_collection_count (_load_index (files st')) = get_collection_count st' /\
  forall c query top_k,
    search_similar c query top_k (_load_index (files st'))
    = search_similar c query top_k st'.
Proof.
  intros Hmut.
  assert (Hfiles : files st' = Saved (index st') (metadata st')).
  { destruct Hmut as [(Hc & He & Hadd) | ->]; [|reflexivity].
    unfold add_documents in Hadd.
    rewrite !bool_decide_eq_false_2 in Hadd by assumption. simpl in Hadd.
    destruct (negb (Nat.eqb _ _)); [discriminate|].
    destruct (array_width embeddings) as [width| |]; try discriminate.
    destruct (negb (Nat.eqb _ _)); [discriminate|].
    destruct (append_metadata chunks _) as [[[]| |] st1]; try discriminate.
    now injection Hadd as <-. }
  rewrite Hfiles. simpl. repeat split.
Qed.

End StoreLifecycle.

Section StoreLifecycleExamples.

Lemma add_documents_appends_witness :
  index two_chunk_store = index fresh_store ++ [zero_vector; unit_vector] /\
  Forall (fun row => length row = embedding_dim) [zero_vector; unit_vector].
Proof.
  destruct (add_documents_appends
              [example_chunk (PStr (pystr_of "first")) (PInt 0);
               example_chunk (PStr (pystr_of "second")) (PInt 1)]
              [zero_vector; unit_vector] fresh_store two_chunk_store)
    as (_ & Hdim & Hindex & _).
  - discriminate.
  - discriminate.
  - vm_compute. reflexivity.
  - split; assumption.
Defined.

Lemma add_documents_failure_keeps_files_witness :
  let failed :=
    snd (add_documents [example_chunk (PStr (pystr_of "first")) PNone]
           [zero_vector] two_chunk_store) in
  files failed = files two_chunk_store /\
  _load_index (files failed) = _load_index (files two_chunk_store).
Proof.
  intros failed.
  destruct (add_documents_failure_keeps_files
              [example_chunk (PStr (pystr_of "first")) PNone]
              [zero_vector] two_chunk_store (TypeError_int PNone) failed)
    as (Hfiles & Hload & _).
  - vm_compute. reflexivity.
  - split; assumption.
Defined.

Lemma restart_after_mutation_witness :
  index (_load_index (files two_chunk_store)) = index two_chunk_store /\
  metadata (_load_index (files two_chunk_store)) = metadata two_chunk_store.
Proof.
  destruct (restart_after_mutation
              [example_chunk (PStr (pystr_of "first")) (PInt 0);
               example_chunk (PStr (pystr_of "second")) (PInt 1)]
              [zero_vector; unit_vector] fresh_store two_chunk_store)
    as (Hindex & Hmeta & _).
  - left. split; [discriminate|]. split; [discriminate|]. vm_compute. reflexivity.
  - split; assumption.
Defined.

End StoreLifecycleExamples.

(** ** The vector store: what a search returns *)
Section SearchResults.

Lemma format_results_found records found h :
  h ∈ format_results records found ->
  (hit_distance h, hit_id h) ∈ found /\
  exists entry, records !! hit_id h = Some entry /\
    hit_text h = text entry /\ source_of h = source_file entry.
Proof.
  induction found as [|[d idx] found IH]; simpl; [intros Hin; inversion Hin|].
  destruct (records !! idx) as [entry|] eqn:Hidx.
  - intros [->|Hin]%elem_of_cons.
    + simpl. split; [left|]. exists entry. now repeat split.
    + destruct (IH Hin) as [Hf He]. split; [now right | exact He].
  - intros Hin. destruct (IH Hin) as [Hf He]. split; [now right | exact He].
Qed.

Lemma format_results_sublist records found :
  List.map hit_id (format_results records found) `sublist_of` (snd <$> found).
Proof.
  induction found as [|[d idx] found IH]; simpl; [constructor|].
  destruct (records !! idx); simpl; now constructor.
Qed.

Lemma ranked_rows rows query d i :
  (d, i) ∈ rank (imap (fun i row => (l2_sqr query row, i)) rows) ->
  exists row, rows !! i = Some row /\ d = l2_sqr query row.
Proof.
  rewrite rank_perm. intros (j & row & Heq & Hrow)%elem_of_lookup_imap.
  injection Heq as -> ->. eauto.
Qed.

(** The shape of every successful search on a non-empty index. *)
Lemma search_similar_found c query top_k st hits :
  search_similar c query top_k st = Ok hits ->
  ntotal st <> 0%nat ->
  exists k, (k <= Z.to_nat (requested c top_k))%nat /\
    hits = format_results (metadata st)
             (take k (rank (imap (fun i row => (l2_sqr query row, i)) (index st)))).
Proof.
  unfold search_similar. fold (requested c top_k). intros Hs Hn.
  destruct (Nat.eqb_spec (ntotal st) 0) as [?|_]; [contradiction|].
  destruct (negb _); [discriminate|].
  unfold index_search in Hs.
  destruct (Z.leb_spec (Z.min (requested c top_k) (Z.of_nat (ntotal st))) 0);
    [discriminate|].
  simpl in Hs. injection Hs as <-.
  eexists; split; [|reflexivity]. lia.
Qed.


Lemma insert_ranked_sorted x l :
  StronglySorted nearer l -> StronglySorted nearer (insert_ranked x l).
Proof.
  induction l as [|y l IH]; simpl; intros Hl.
  - repeat constructor.
  - apply StronglySorted_cons in Hl as [Hy Hl].
    destruct (Qle_bool (fst x) (fst y)) eqn:Hxy.
    + apply Qle_bool_iff in Hxy. constructor; [now constructor|].
      constructor; [exact Hxy|].
      eapply Forall_impl; [exact Hy|]. intros z Hz. unfold nearer in *.
      now apply Qle_trans with (fst y).
    + constructor; [now apply IH|].
      rewrite insert_ranked_perm. constructor; [|exact Hy].
      unfold nearer. apply Qlt_le_weak, Qnot_le_lt.
      intros Hle. apply Qle_bool_iff in Hle. congruence.
Qed.

Lemma rank_sorted l : StronglySorted nearer (rank l).
Proof.
  induction l as [|x l IH]; simpl; [constructor | now apply insert_ranked_sorted].
Qed.

Lemma format_results_sorted records found :
  StronglySorted nearer found ->
  StronglySorted (fun a b => (hit_distance a <= hit_distance b)%Q)
    (format_results records found).
Proof.
  induction 1 as [|[d idx] found Hfound IH Hall]; simpl; [constructor|].
  destruct (records !! idx) as [entry|]; [|exact IH].
  constructor; [exact IH|].
  apply Forall_forall. intros h Hh. simpl.
  apply format_results_found in Hh as [Hf _].
  rewrite Forall_forall in Hall. exact (Hall _ Hf).
Qed.

(** X5. The hits of a search come nearest first: their distances never
    decrease along the list. On a store whose index and metadata agree the
    hits are the nearest entries: a stored vector that is not among them is
    at least as far from the query as every hit. *)
Theorem search_similar_nearest_first c query top_k st hits :
  search_similar c query top_k st = Ok hits ->
  StronglySorted (fun a b => (hit_distance a <= hit_distance b)%Q) hits /\
  (consistent st ->
   forall i row, index st !! i = Some row ->
     i ∉ List.map hit_id hits ->
     forall h, h ∈ hits -> (hit_distance h <= l2_sqr query row)%Q).
Proof.
  intros Hs. destruct (Nat.eq_dec (ntotal st) 0%nat) as [Hz|Hnz].
  { unfold search_similar in Hs. rewrite Hz in Hs. simpl in Hs.
    injection Hs as <-. split; [constructor|]. intros _ i row _ _ h Hh.
    inversion Hh. }
  destruct (search_similar_found c query top_k st hits Hs Hnz) as (k & Hk & ->).
  set (ranked := rank (imap (fun i row => (l2_sqr query row, i)) (index st))).
  assert (Hsorted : StronglySorted nearer (take k ranked ++ drop k ranked))
    by (rewrite take_drop; apply rank_sorted).
  split.
  - apply format_results_sorted. now apply StronglySorted_app_1_l in Hsorted.
  - intros Hst i row Hrow Hnot h Hh.
    assert (Hids : List.map hit_id (format_results (metadata st) (take k ranked))
                   = snd <$> take k ranked).
    { apply format_results_ids. apply Forall_forall. intros [d j] Hin. simpl.
      apply subseteq_take in Hin. apply ranked_rows in Hin as (r & Hr & _).
      apply lookup_lt_Some in Hr. unfold consistent in Hst. lia. }
    assert (Hin : (l2_sqr query row, i) ∈ ranked).
    { subst ranked. rewrite rank_perm.
      apply (elem_of_lookup_imap_2 (fun i row => (l2_sqr query row, i))).
      exact Hrow. }
    rewrite <- (take_drop k ranked) in Hin.
    apply elem_of_app in Hin as [Hin|Hin].
    + exfalso. apply Hnot. rewrite Hids.
      apply list_elem_of_fmap. now exists (l2_sqr query row, i).
    + apply format_results_found in Hh as [Hf _].
      exact (StronglySorted_app_1_elem_of nearer _ _ _ _ Hsorted Hf Hin).
Qed.

End SearchResults.

Section SearchResultsExamples.


Lemma search_similar_nearest_first_witness :
  StronglySorted (fun a b => (hit_distance a <= hit_distance b)%Q) example_hits.
Proof.
  destruct (search_similar_nearest_first default_config unit_vector None
              two_chunk_store example_hits) as (Hsorted & _).
  - vm_compute. reflexivity.
  - exact Hsorted.
Defined.

End SearchResultsExamples.

(** ** The chunker: numbering, sizes, number of chunks *)
Section ChunkerMore.

(** Every run of the loop that ends is a walk, whatever the configuration. *)
Lemma windows_some_walk c text : forall fuel start ws,
  start < len text ->
  windows fuel c text start = Some ws -> walk c text start ws.
Proof.
  induction fuel as [|fuel IH]; intros start ws Hstart Hw; [discriminate|].
  simpl in Hw. destruct (Z.ltb_spec start (len text)) as [_|?]; [|lia].
  destruct (window c text start) as [e ct] eqn:Hwin.
  destruct (Z.leb_spec (len text) (e - CHUNK_OVERLAP c)) as [Hend|Hmore].
  - injection Hw as <-.
    pose proof (walk_last c text start) as W. rewrite Hwin in W. apply W; simpl; lia.
  - destruct (windows fuel c text (e - CHUNK_OVERLAP c)) as [ws'|] eqn:Hws;
      [|discriminate].
    injection Hw as <-.
    pose proof (walk_next c text start ws') as W. rewrite Hwin in W.
    apply W; simpl; [lia | lia |]. now apply IH.
Qed.

Lemma walk_non_empty c text start ws : walk c text start ws -> ws <> [].
Proof. intros W. inversion W; discriminate. Qed.

(** The chunks of a text, when [chunk_text] returns: none, one, or those
    of a walk from offset 0. *)
Lemma chunk_text_cases fuel c text sf md chunks :
  chunk_text fuel c text sf md = Some chunks ->
  (chunks = [] /\ strip text = []) \/
  (strip text <> [] /\ len (strip text) <= CHUNK_SIZE c /\
   chunks = [update_with md
               (<["total_chunks" := PInt 1]>
                (<["source_file" := py_or sf (PStr (pystr_of "unknown"))]>
                 (<["chunk_index" := PInt 0]>
                  {["text" := PStr (strip text)]})))]) \/
  (CHUNK_SIZE c < len (strip text) /\
   exists ws, walk c (strip text) 0 ws /\
     chunks = List.map (fun chunk => <["total_chunks" := PInt (len ws)]> chunk)
                (chunks_of_windows sf md 0 ws)).
Proof.
  unfold chunk_text, str_eqb. intros Hc.
  destruct (decide (strip text = [])) as [Hblank|Hne].
  { rewrite (bool_decide_eq_true_2 (strip text = [])), orb_true_r in Hc
      by assumption.
    injection Hc as <-. now left. }
  assert (Hne' : text <> []) by (intros E; apply Hne; now rewrite E).
  rewrite !bool_decide_eq_false_2 in Hc by assumption. simpl in Hc.
  destruct (Z.leb_spec (len (strip text)) (CHUNK_SIZE c)) as [Hshort|Hlong].
  { injection Hc as <-. right; left. now repeat split. }
  right; right. split; [assumption|].
  rewrite chunk_loop_windows in Hc.
  destruct (windows fuel c (strip text) 0) as [ws|] eqn:Hws; [|discriminate].
  simpl in Hc. injection Hc as <-.
  exists ws. split.
  - apply (windows_some_walk c _ fuel); [|assumption].
    destruct (strip text); [contradiction | unfold len; simpl; lia].
  - unfold len. now rewrite chunks_of_windows_length.
Qed.

(** X6. Whenever [chunk_text] returns, with metadata that sets neither
    [chunk_index] nor [total_chunks], the chunks are numbered from 0 in
    the order returned and each records the number of chunks of the
    text. *)
Theorem chunk_text_numbering fuel c text sf md chunks :
  (forall md', md = Some md' ->
     md' !! "chunk_index" = None /\ md' !! "total_chunks" = None) ->
  chunk_text fuel c text sf md = Some chunks ->
  forall i chunk, chunks !! i = Some chunk ->
    int_field "chunk_index" chunk = Some (Z.of_nat i) /\
    int_field "total_chunks" chunk = Some (len chunks).
Proof.
  intros Hmd Hc i chunk Hi.
  assert (Hci : forall md', md = Some md' -> md' !! "chunk_index" = None)
    by (intros md' E; now apply Hmd).
  assert (Htc : forall md', md = Some md' -> md' !! "total_chunks" = None)
    by (intros md' E; now apply Hmd).
  destruct (chunk_text_cases _ _ _ _ _ _ Hc)
    as [[-> _] | [(_ & _ & ->) | (_ & ws & _ & ->)]].
  - discriminate.
  - destruct i; [|discriminate]. injection Hi as <-.
    unfold int_field. rewrite !update_with_lookup by assumption.
    now rewrite lookup_insert_eq, lookup_insert_ne, lookup_insert_ne,
      lookup_insert_eq by discriminate.
  - rewrite stamped_lookup in Hi.
    destruct (ws !! i) as [[[s e] ct]|]; [|discriminate].
    injection Hi as <-. simpl. unfold int_field, chunk_data_of.
    rewrite lookup_insert_eq.
    rewrite lookup_insert_ne, update_with_lookup by (assumption || discriminate).
    rewrite !lookup_insert_ne, lookup_insert_eq by discriminate.
    split; [reflexivity|]. unfold len. now rewrite stamped_length.
Qed.

Lemma walk_length_bound c text : advancing c ->
  forall start ws, 0 <= start -> walk c text start ws ->
  start + (len ws - 1) * (int_08 (CHUNK_SIZE c) + 1 - CHUNK_OVERLAP c) < len text.
Proof.
  intros Hadv start ws Hstart W. revert Hstart.
  induction W as [start Hlt Hend | start ws Hlt Hmore W IH]; intros Hstart.
  - unfold len in *. simpl. lia.
  - pose proof (window_advances c text start Hadv Hstart) as Hprog.
    destruct Hadv as [Hcs Hov]. pose proof (int_08_bounds _ Hcs) as H08.
    assert (Hstep : start + (int_08 (CHUNK_SIZE c) + 1 - CHUNK_OVERLAP c)
                    <= fst (window c text start) - CHUNK_OVERLAP c).
    { destruct (window_end c text start Hcs Hstart) as [H1|H1]; lia. }
    specialize (IH ltac:(lia)).
    replace (len (_ :: ws)) with (len ws + 1) by (unfold len; simpl; lia).
    nia.
Qed.

(** X7. On an advancing configuration (chunk_size at least 1, overlap at
    most int(0.8 * chunk_size)) [chunk_text] returns for every text, given
    fuel for one loop test per character, and the number [n] of chunks is
    bounded by the length of the stripped text and the least advance of the
    window: (n - 1) * (int(0.8 * chunk_size) + 1 - overlap) is less than
    the length, for a text longer than chunk_size. *)
Theorem chunk_text_count_bound fuel c text sf md :
  advancing c -> CHUNK_SIZE c < len (strip text) ->
  (length text <= fuel)%nat ->
  exists chunks,
    chunk_text fuel c text sf md = Some chunks /\
    1 <= len chunks /\
    (len chunks - 1) * (int_08 (CHUNK_SIZE c) + 1 - CHUNK_OVERLAP c)
      < len (strip text).
Proof.
  intros Hadv Hlong Hfuel.
  destruct (chunk_text_total fuel c text sf md Hadv Hfuel) as [chunks Hc].
  exists chunks. split; [exact Hc|].
  destruct (chunk_text_cases _ _ _ _ _ _ Hc)
    as [[_ Hblank] | [(_ & Hshort & _) | (_ & ws & W & ->)]].
  - rewrite Hblank in Hlong. destruct Hadv. unfold len in Hlong. simpl in Hlong. lia.
  - lia.
  - pose proof (walk_length_bound c _ Hadv 0 ws ltac:(lia) W) as Hbound.
    pose proof (walk_non_empty _ _ _ _ W) as Hne.
    unfold len in *. rewrite stamped_length.
    destruct ws; [contradiction|]. simpl in *. split; lia.
Qed.

(** X8. On an advancing configuration, with metadata that does not set
    [text], no chunk that [chunk_text] returns holds more than
    [chunk_size] characters. *)
Theorem chunk_text_size fuel c text sf md chunks :
  advancing c ->
  (forall md', md = Some md' -> md' !! "text" = None) ->
  chunk_text fuel c text sf md = Some chunks ->
  forall chunk, chunk ∈ chunks ->
    exists t, str_field "text" chunk = Some t /\ len t <= CHUNK_SIZE c.
Proof.
  intros Hadv Hmd Hc chunk Hin.
  destruct (chunk_text_cases _ _ _ _ _ _ Hc)
    as [[-> _] | [(_ & Hshort & ->) | (_ & ws & W & ->)]].
  - inversion Hin.
  - apply list_elem_of_singleton in Hin as ->.
    exists (strip text). split; [|assumption].
    unfold str_field. rewrite update_with_lookup by assumption.
    now rewrite !lookup_insert_ne, lookup_singleton_eq by discriminate.
  - apply list_elem_of_lookup in Hin as [i Hi]. rewrite stamped_lookup in Hi.
    destruct (ws !! i) as [[[s e] ct]|] eqn:Hw; [|discriminate].
    injection Hi as <-. simpl.
    assert (Hin : (s, e, ct) ∈ ws) by (apply list_elem_of_lookup; eauto).
    destruct (walk_elem c _ Hadv 0 ws ltac:(lia) W _ _ _ Hin) as (Hs & He & ->).
    exists (strip (slice (strip text) s e)). split.
    + unfold str_field, chunk_data_of.
      rewrite lookup_insert_ne, update_with_lookup by (assumption || discriminate).
      now rewrite !lookup_insert_ne, lookup_singleton_eq by discriminate.
    + pose proof (strip_len (slice (strip text) s e)) as Hstrip.
      pose proof (window_end_le c (strip text) s (proj1 Hadv) (proj1 Hs)) as Hle.
      destruct Hadv as [Hcs Hov]. pose proof (int_08_bounds _ Hcs).
      pose proof (window_end c (strip text) s Hcs (proj1 Hs)) as Hend.
      simpl in Hend. rewrite <- He in Hle, Hend.
      rewrite slice_length in Hstrip by lia. lia.
Qed.

End ChunkerMore.

Section ChunkerMoreExamples.

Lemma chunk_text_numbering_witness :
  int_field "chunk_index" second_letter_chunk = Some (Z.of_nat 1) /\
  int_field "total_chunks" second_letter_chunk = Some (len twelve_letter_chunks).
Proof.
  apply (chunk_text_numbering 12 (small_config 2) twelve_letters
           (PStr (pystr_of "notes.txt")) (Some notes_metadata)
           twelve_letter_chunks).
  - intros md' Hmd. injection Hmd as <-. split; by_evaluation.
  - by_evaluation.
  - by_evaluation.
Defined.

Lemma chunk_text_count_bound_witness :
  exists chunks,
    chunk_text 12 (small_config 2) twelve_letters PNone None = Some chunks /\
    1 <= len chunks /\
    (len chunks - 1)
      * (int_08 (CHUNK_SIZE (small_config 2)) + 1 - CHUNK_OVERLAP (small_config 2))
      < len (strip twelve_letters).
Proof.
  apply (chunk_text_count_bound 12 (small_config 2) twelve_letters PNone None).
  - split; vm_compute; discriminate.
  - vm_compute. reflexivity.
  - vm_compute. lia.
Defined.

Lemma chunk_text_size_witness :
  exists t,
    str_field "text" second_letter_chunk = Some t /\
    len t <= CHUNK_SIZE (small_config 2).
Proof.
  apply (chunk_text_size 12 (small_config 2) twelve_letters
           (PStr (pystr_of "notes.txt")) (Some notes_metadata)
           twelve_letter_chunks).
  - split; vm_compute; discriminate.
  - intros md' Hmd. injection Hmd as <-. by_evaluation.
  - by_evaluation.
  - apply (list_elem_of_lookup_2 _ 1%nat). by_evaluation.
Defined.

End ChunkerMoreExamples.

(** ** TextChunker.chunk_documents *)
Section ChunkDocuments.

Lemma update_with_keeps md m (k : string) v :
  md !! k = Some v -> update_with (Some md) m !! k = Some v.
Proof.
  intros Hk. unfold update_with. case_bool_decide as Hempty.
  - rewrite Hempty, lookup_empty in Hk. discriminate.
  - now apply lookup_union_Some_l.
Qed.

(** Every chunk of a text carries the metadata given with it; only
    [total_chunks] is written after the metadata. *)
Lemma chunk_text_keeps_metadata fuel c text sf md chunks :
  chunk_text fuel c text sf (Some md) = Some chunks ->
  forall chunk, chunk ∈ chunks ->
    (forall k v, md !! k = Some v -> k <> "total_chunks" -> chunk !! k = Some v) /\
    (md !! "source_file" = None ->
     chunk !! "source_file" = Some (py_or sf (PStr (pystr_of "unknown")))).
Proof.
  intros Hc chunk Hin.
  destruct (chunk_text_cases _ _ _ _ _ _ Hc)
    as [[-> _] | [(_ & _ & ->) | (_ & ws & _ & ->)]].
  - inversion Hin.
  - apply list_elem_of_singleton in Hin as ->. split.
    + intros k v Hk _. now apply update_with_keeps.
    + intros Hsf. rewrite update_with_lookup by (now intros md' [= <-]).
      now rewrite lookup_insert_ne, lookup_insert_eq by discriminate.
  - apply list_elem_of_lookup in Hin as [i Hi]. rewrite stamped_lookup in Hi.
    destruct (ws !! i) as [[[s e] ct]|]; [|discriminate].
    injection Hi as <-. cbv beta. unfold chunk_data_of. split.
    + intros k v Hk Hne. rewrite lookup_insert_ne by congruence.
      now apply update_with_keeps.
    + intros Hsf. rewrite lookup_insert_ne by discriminate.
      case_bool_decide; [|rewrite lookup_union_r by assumption];
        now rewrite !lookup_insert_ne, lookup_insert_eq by discriminate.
Qed.

(** A text that is not blank gives at least one chunk. *)
Lemma chunk_text_non_blank fuel c text sf md chunks :
  chunk_text fuel c text sf md = Some chunks ->
  (chunks = [] <-> strip text = []).
Proof.
  intros Hc.
  destruct (chunk_text_cases _ _ _ _ _ _ Hc)
    as [[-> Hblank] | [(Hne & _ & ->) | (Hlong & ws & W & ->)]].
  - tauto.
  - split; [discriminate | contradiction].
  - pose proof (walk_non_empty _ _ _ _ W) as Hws.
    split.
    + intros Hnil. apply (f_equal (@length _)) in Hnil.
      rewrite stamped_length in Hnil. destruct ws; [contradiction | discriminate].
    + intros Hblank. exfalso.
      assert (Hstart : 0 < len (strip text)) by (inversion W; assumption).
      rewrite Hblank in Hstart. unfold len in Hstart. simpl in Hstart. lia.
Qed.

(** X9. Every chunk that [chunk_documents] returns comes from one of the
    documents, whose content is not blank: it carries that document's name
    under [document_name], every other entry of the document's metadata
    (apart from a [total_chunks] entry) unchanged, and, unless the metadata
    sets [source_file] itself, the document's name as [source_file]
    ("unknown" for an empty name). *)
Theorem chunk_documents_provenance fuel c documents chunks :
  chunk_documents fuel c documents = Some chunks ->
  forall chunk, chunk ∈ chunks ->
  exists doc, doc ∈ documents /\
    strip (doc_content doc) <> [] /\
    chunk !! "document_name" = Some (PStr (doc_name doc)) /\
    (forall k v, doc_metadata doc !! k = Some v ->
       k <> "document_name" -> k <> "total_chunks" -> chunk !! k = Some v) /\
    (doc_metadata doc !! "source_file" = None ->
     chunk !! "source_file" =
       Some (py_or (PStr (doc_name doc)) (PStr (pystr_of "unknown")))).
Proof.
  revert chunks. induction documents as [|doc rest IH]; intros chunks Hc chunk Hin.
  - injection Hc as <-. inversion Hin.
  - simpl in Hc.
    destruct (chunk_text fuel c (doc_content doc) _ _) as [mine|] eqn:Hmine;
      [|discriminate].
    destruct (chunk_documents fuel c rest) as [more|]; [|discriminate].
    injection Hc as <-. apply elem_of_app in Hin as [Hin|Hin].
    + exists doc. split; [left|].
      destruct (chunk_text_keeps_metadata _ _ _ _ _ _ Hmine chunk Hin)
        as [Hkeys Hsf].
      split.
      { intros Hblank. apply (chunk_text_non_blank _ _ _ _ _ _ Hmine) in Hblank.
        subst mine. inversion Hin. }
      split; [apply Hkeys; [apply lookup_insert_eq | discriminate]|].
      split.
      * intros k v Hk Hne1 Hne2. apply Hkeys; [|assumption].
        now rewrite lookup_insert_ne by congruence.
      * intros Hnone. apply Hsf. now rewrite lookup_insert_ne by discriminate.
    + destruct (IH more eq_refl chunk Hin) as (doc' & Hdoc & Hrest).
      exists doc'. split; [now right | exact Hrest].
Qed.

End ChunkDocuments.

Section ChunkDocumentsExamples.

Lemma chunk_documents_provenance_witness :
  exists doc, doc ∈ [notes_record] /\
    strip (doc_content doc) <> [] /\
    default ∅ (notes_chunks !! 1%nat) !! "document_name"
      = Some (PStr (doc_name doc)) /\
    (forall k v, doc_metadata doc !! k = Some v ->
       k <> "document_name" -> k <> "total_chunks" ->
       default ∅ (notes_chunks !! 1%nat) !! k = Some v) /\
    (doc_metadata doc !! "source_file" = None ->
     default ∅ (notes_chunks !! 1%nat) !! "source_file" =
       Some (py_or (PStr (doc_name doc)) (PStr (pystr_of "unknown")))).
Proof.
  apply (chunk_documents_provenance 12 (small_config 2) [notes_record]
           notes_chunks).
  - by_evaluation.
  - apply (list_elem_of_lookup_2 _ 1%nat). by_evaluation.
Defined.

End ChunkDocumentsExamples.

(** ** RAGService.ingest_documents *)
Section IngestDocuments.
Context `{Runtime}.

(** The two ways [add_documents] returns: nothing to do, or everything
    appended and saved. *)
Lemma add_documents_ok chunks embeddings st st' :
  add_documents chunks embeddings st = (Ok tt, st') ->
  ((chunks = [] \/ embeddings = []) /\ st' = st) \/
  (chunks <> [] /\ embeddings <> [] /\
   length chunks = length embeddings /\
   index st' = index st ++ embeddings /\
   files st' = Saved (index st') (metadata st') /\
   exists entries,
     metadata st' = metadata st ++ entries /\
     Forall2 (fun chunk entry => metadata_entry_of chunk = Ok entry)
       chunks entries).
Proof.
  unfold add_documents. intros Hadd.
  destruct (decide (chunks = [])) as [Hc|Hc].
  { rewrite (bool_decide_eq_true_2 _ Hc) in Hadd. simpl in Hadd.
    injection Hadd as <-. left. split; [now left | reflexivity]. }
  destruct (decide (embeddings = [])) as [He|He].
  { rewrite (bool_decide_eq_true_2 _ He), orb_true_r in Hadd.
    injection Hadd as <-. left. split; [now right | reflexivity]. }
  rewrite !bool_decide_eq_false_2 in Hadd by assumption. simpl in Hadd.
  destruct (Nat.eqb_spec (length chunks) (length embeddings)) as [Hlen|];
    [|discriminate]. simpl in Hadd.
  destruct (array_width embeddings) as [width| |]; try discriminate.
  destruct (negb (Nat.eqb _ _)); [discriminate|].
  destruct (append_metadata chunks _) as [[[]| |] st1] eqn:Happ; try discriminate.
  injection Hadd as <-.
  pose proof (append_metadata_run chunks
                {| index := index st ++ embeddings; metadata := metadata st;
                   files := files st |}) as (Hi & _ & _).
  rewrite Happ in Hi. simpl in Hi.
  apply append_metadata_entries in Happ. simpl in Happ.
  right. split; [assumption|]. split; [assumption|]. split; [assumption|].
  split; [exact Hi|]. split; [reflexivity | exact Happ].
Qed.

(** A call of [add_documents] that raises leaves the files as they were. *)
Lemma add_documents_raise_files chunks embeddings st e st' :
  add_documents chunks embeddings st = (Raise e, st') -> files st' = files st.
Proof.
  unfold add_documents. intros Hadd.
  destruct (_ || _); [discriminate|].
  destruct (negb (Nat.eqb _ _)); [now injection Hadd as _ <-|].
  destruct (array_width embeddings) as [width| |];
    [|now injection Hadd as _ <-|discriminate].
  destruct (negb (Nat.eqb _ _)); [now injection Hadd as _ <-|].
  pose proof (append_metadata_run chunks
                {| index := index st ++ embeddings; metadata := metadata st;
                   files := files st |}) as (_ & Hf & _).
  destruct (append_metadata chunks _) as [[[]| |] st1] eqn:Happ; try discriminate.
  injection Hadd as _ <-. exact Hf.
Qed.

(** The runs of [ingest_documents] that return. *)
Lemma ingest_documents_ok fuel e rebuild st r st' :
  ingest_documents fuel e rebuild st = (Ok r, st') ->
  let base := if rebuild then clear_collection st else st in
  let records := get_records_with_metadata e in
  (status r = no_documents /\ records = [] /\ st' = base /\
   documents_processed r = 0%nat /\ chunks_created r = 0%nat /\
   vector_store_count r = None) \/
  (status r = no_chunks /\ records <> [] /\
   chunk_documents fuel (cfg e) records = Some [] /\ st' = base /\
   documents_processed r = length records /\ chunks_created r = 0%nat /\
   vector_store_count r = None) \/
  (status r = success /\ records <> [] /\
   exists chunks texts embeddings,
     chunk_documents fuel (cfg e) records = Some chunks /\ chunks <> [] /\
     chunk_texts_of chunks = Ok texts /\
     generate_embeddings_batch e texts = Returned embeddings /\
     add_documents chunks embeddings base = (Ok tt, st') /\
     documents_processed r = length records /\
     chunks_created r = length chunks /\
     vector_store_count r = Some (get_collection_count st')).
Proof.
  unfold ingest_documents, bind, ret, lift. cbv zeta.
  set (base := if rebuild then clear_collection st else st).
  case_bool_decide as Hrec.
  { intros [= <- <-]. left. now repeat split. }
  destruct (chunk_documents fuel (cfg e) (get_records_with_metadata e))
    as [chunks|] eqn:Hch; [|discriminate].
  case_bool_decide as Hchunks.
  { intros [= <- <-]. right; left. subst chunks.
    repeat split; assumption || reflexivity. }
  destruct (chunk_texts_of chunks) as [texts| |] eqn:Htexts; try discriminate.
  destruct (generate_embeddings_batch e texts) as [embeddings|err] eqn:Hemb;
    simpl; [|discriminate].
  destruct (add_documents chunks embeddings base) as [[[]| |] st1] eqn:Hadd;
    try discriminate.
  intros [= <- <-]. right; right. split; [reflexivity|]. split; [assumption|].
  exists chunks, texts, embeddings. repeat split; assumption || reflexivity.
Qed.

(** X10. When [ingest_documents] returns, its report counts the documents
    read; with status [success] it counts at least one chunk, the chunks
    of the documents, and the count it reports is the count of the store,
    which has grown by the number of chunks (from zero on a rebuild), or
    has not grown at all (the embedder returned no vector); with another
    status no chunk is counted and the store is as it was (empty on a
    rebuild). *)
Theorem ingest_documents_accounting fuel e rebuild st r st' :
  ingest_documents fuel e rebuild st = (Ok r, st') ->
  let before := if rebuild then 0%nat else get_collection_count st in
  documents_processed r = length (get_records_with_metadata e) /\
  get_collection_count (if rebuild then clear_collection st else st) = before /\
  (status r = success ->
     (0 < chunks_created r)%nat /\
     length <$> chunk_documents fuel (cfg e) (get_records_with_metadata e)
       = Some (chunks_created r) /\
     vector_store_count r = Some (get_collection_count st') /\
     (get_collection_count st' = (before + chunks_created r)%nat \/
      get_collection_count st' = before)) /\
  (status r <> success ->
     chunks_created r = 0%nat /\ vector_store_count r = None /\
     st' = if rebuild then clear_collection st else st).
Proof.
  intros Hing. cbv zeta.
  assert (Hbefore : get_collection_count
                      (if rebuild then clear_collection st else st)
                    = if rebuild then 0%nat else get_collection_count st)
    by (now destruct rebuild).
  destruct (ingest_documents_ok _ _ _ _ _ _ Hing)
    as [(Hs & Hrec & -> & Hd & Hc & Hv)
       | [(Hs & Hrec & Hch & -> & Hd & Hc & Hv)
         | (Hs & Hrec & chunks & texts & embeddings
            & Hch & Hne & Htexts & Hemb & Hadd & Hd & Hc & Hv)]].
  - rewrite Hs, Hd, Hrec. repeat split; try assumption; discriminate.
  - rewrite Hs. repeat split; try assumption; discriminate.
  - rewrite Hs. split; [assumption|]. split; [assumption|].
    split; [|intros Hcontra; contradiction]. intros _.
    rewrite Hc, Hch. split; [destruct chunks; [contradiction | simpl; lia]|].
    split; [reflexivity|]. split; [assumption|].
    rewrite <- Hbefore.
    destruct (add_documents_ok _ _ _ _ Hadd)
      as [[_ ->] | (_ & _ & Hlen & Hidx & _)]; [now right | left].
    unfold get_collection_count, ntotal. rewrite Hidx, length_app. lia.
Qed.

(** X11. After a rebuild that reports [success] the store holds the
    current corpus and nothing else: the index is the list of vectors the
    embedder returned for the texts of the chunks of the documents, the
    metadata list has one record per chunk, in order (none when the
    embedder returned no vector), and the files hold the same. Nothing of
    the previous store remains. *)
Theorem rebuild_replaces_store fuel e st r st' :
  ingest_documents fuel e true st = (Ok r, st') ->
  status r = success ->
  exists chunks texts embeddings,
    chunk_documents fuel (cfg e) (get_records_with_metadata e) = Some chunks /\
    chunk_texts_of chunks = Ok texts /\
    generate_embeddings_batch e texts = Returned embeddings /\
    index st' = embeddings /\
    (embeddings <> [] ->
     Forall2 (fun chunk entry => metadata_entry_of chunk = Ok entry)
       chunks (metadata st')) /\
    (embeddings = [] -> metadata st' = []) /\
    files st' = Saved (index st') (metadata st').
Proof.
  intros Hing Hs.
  destruct (ingest_documents_ok _ _ _ _ _ _ Hing)
    as [(Hs' & _) | [(Hs' & _)
         | (_ & Hrec & chunks & texts & embeddings
            & Hch & Hne & Htexts & Hemb & Hadd & _)]]; try congruence.
  exists chunks, texts, embeddings.
  split; [assumption|]. split; [assumption|]. split; [assumption|].
  destruct (add_documents_ok _ _ _ _ Hadd)
    as [[[?| ->] ->] | (_ & He & _ & Hidx & Hfiles & entries & Hm & Hall)];
    [contradiction| |].
  - repeat split; try reflexivity. intros Hcontra. contradiction.
  - simpl in Hidx, Hm. subst entries. repeat split; try assumption.
    + intros _. exact Hall.
    + intros ->. contradiction.
Qed.

(** X12. A rebuild that raises, or that ends with a status other than
    [success], has already replaced the saved index by an empty one: the
    files hold no vector and no record, and a restart loads an empty
    store. *)
Theorem rebuild_without_success_empties_files fuel e st out st' :
  ingest_documents fuel e true st = (out, st') ->
  match out with
  | Ok r => status r <> success
  | Raise _ => True
  | OutOfFuel => False
  end ->
  files st' = Saved [] [] /\
  index (_load_index (files st')) = [] /\
  metadata (_load_index (files st')) = [] /\
  get_collection_count (_load_index (files st')) = 0%nat.
Proof.
  intros Hing Hout.
  assert (Hfiles : files st' = Saved [] []).
  { destruct out as [r|err|]; [| |contradiction].
    - destruct (ingest_documents_ok _ _ _ _ _ _ Hing)
        as [(_ & _ & -> & _) | [(_ & _ & _ & -> & _) | (Hs & _)]];
        [reflexivity | reflexivity | contradiction].
    - revert Hing. unfold ingest_documents, bind, ret, lift. cbv zeta.
      case_bool_decide; [discriminate|].
      destruct (chunk_documents _ _ _) as [chunks|]; [|discriminate].
      case_bool_decide; [discriminate|].
      destruct (chunk_texts_of chunks) as [texts| |];
        [|now intros [= _ <-]|discriminate].
      destruct (generate_embeddings_batch e texts) as [embeddings|err'];
        simpl; [|now intros [= _ <-]].
      destruct (add_documents chunks embeddings (clear_collection st))
        as [[[]| |] st1] eqn:Hadd; try discriminate.
      intros [= _ <-].
      now rewrite (add_documents_raise_files _ _ _ _ _ Hadd). }
  rewrite Hfiles. now repeat split.
Qed.

End IngestDocuments.

(** ** RAGService.query: the sources it cites *)
Section QuerySources.
Context `{Runtime}.

Lemma search_similar_stored c query top_k st hits :
  search_similar c query top_k st = Ok hits ->
  (length hits <= Z.to_nat (requested c top_k))%nat /\
  forall h, h ∈ hits ->
    exists entry, metadata st !! hit_id h = Some entry /\
      source_of h = source_file entry.
Proof.
  intros Hs. destruct (Nat.eq_dec (ntotal st) 0%nat) as [Hz|Hnz].
  { unfold search_similar in Hs. rewrite Hz in Hs. simpl in Hs.
    injection Hs as <-. split; [simpl; lia|]. intros h Hh. inversion Hh. }
  destruct (search_similar_found c query top_k st hits Hs Hnz) as (k & Hk & ->).
  split.
  - rewrite <- (length_map hit_id).
    etransitivity; [apply sublist_length, format_results_sublist|].
    rewrite length_fmap, length_take. lia.
  - intros h Hh. apply format_results_found in Hh as (_ & entry & He & _ & Hsrc).
    eauto.
Qed.

Lemma first_seen_length names : (length (first_seen names) <= length names)%nat.
Proof.
  induction names as [|name names IH]; simpl; [lia|].
  pose proof (length_filter (fun other => other <> name) (first_seen names)).
  lia.
Qed.

Lemma answer_question_inv e question st r st' :
  answer_question e question st = (Ok r, st') ->
  exists embedding hits,
    generate_embedding e question = Returned embedding /\
    search_similar (cfg e) embedding None st = Ok hits /\
    st' = st /\
    sources r = first_seen (List.map source_of hits) /\
    has_records r = (0 <? len hits).
Proof.
  intros Ha. destruct (generate_embedding e question) as [emb|err] eqn:Hg.
  - destruct (search_similar (cfg e) emb None st) as [hits| |] eqn:Hs.
    + destruct (answer_question_returns e question st emb hits Hg Hs)
        as (r0 & Hr0 & Hhas & Hsrc & _).
      rewrite Hr0 in Ha. injection Ha as <- <-.
      rewrite answer_prompt_sources in Hsrc. exists emb, hits. now repeat split.
    + exfalso. revert Ha. unfold answer_question, bind, lift.
      rewrite Hg. simpl. rewrite Hs. discriminate.
    + exfalso. revert Ha. unfold answer_question, bind, lift.
      rewrite Hg. simpl. rewrite Hs. discriminate.
  - exfalso. revert Ha. unfold answer_question, bind, lift.
    rewrite Hg. discriminate.
Qed.

(** [query] answers from the store as it is, or as the first ingestion
    leaves it, or gives the fixed result. *)
Lemma query_inv fuel e question st r st' :
  query fuel e question st = (Ok r, st') ->
  r = no_access_result \/
  exists st1, answer_question e question st1 = (Ok r, st').
Proof.
  unfold query, bind, ret. destruct (Nat.eqb (get_collection_count st) 0).
  - destruct (ingest_documents fuel e false st) as [[ir| |] st1]; try discriminate.
    destruct (status ir).
    + intros Ha. right. now exists st1.
    + intros [= <- <-]. now left.
    + intros [= <- <-]. now left.
  - intros Ha. right. now exists st.
Qed.

(** X13. Whenever [query] returns, also after its first ingestion, the
    sources of the result are source files of metadata records of the
    store as [query] leaves it; no source is listed twice, there are at
    most [TOP_K_CHUNKS] of them, and there is none when the result is not
    flagged as grounded. *)
Theorem query_sources_are_stored fuel e question st r st' :
  query fuel e question st = (Ok r, st') ->
  NoDup (sources r) /\
  (forall name, name ∈ sources r ->
     exists entry, entry ∈ metadata st' /\ source_file entry = name) /\
  (length (sources r) <= Z.to_nat (TOP_K_CHUNKS (cfg e)))%nat /\
  (has_records r = false -> sources r = []).
Proof.
  intros Hq. destruct (query_inv _ _ _ _ _ _ Hq) as [-> | [st1 Ha]].
  { simpl. repeat split; try constructor; try lia.
    intros name Hin. inversion Hin. }
  destruct (answer_question_inv _ _ _ _ _ Ha)
    as (emb & hits & _ & Hs & -> & Hsrc & Hhas).
  destruct (search_similar_stored _ _ _ _ _ Hs) as [Hlen Hstored].
  rewrite Hsrc, Hhas. split; [apply first_seen_NoDup|]. split; [|split].
  - intros name Hin. apply (proj1 (first_seen_elem _ _)) in Hin.
    rewrite map_fmap in Hin.
    apply list_elem_of_fmap in Hin as (h & Hname & Hh).
    destruct (Hstored h Hh) as (entry & He & Hentry).
    exists entry. split; [eapply list_elem_of_lookup_2; exact He|]. congruence.
  - etransitivity; [apply first_seen_length|]. now rewrite length_map.
  - intros Hnone. destruct hits; [reflexivity|].
    apply Z.ltb_ge in Hnone. unfold len in Hnone. simpl in Hnone. lia.
Qed.

End QuerySources.

Section IngestAndQueryExamples.

Lemma ingest_documents_accounting_witness :
  documents_processed rebuilt_report
    = length (get_records_with_metadata (checkup_env (Returned [unit_vector]))) /\
  (0 < chunks_created rebuilt_report)%nat /\
  vector_store_count rebuilt_report = Some (get_collection_count (snd rebuilt)).
Proof.
  assert (Hrun : ingest_documents 1 (checkup_env (Returned [unit_vector])) true
                   two_chunk_store = (Ok rebuilt_report, snd rebuilt))
    by by_evaluation.
  destruct (ingest_documents_accounting _ _ _ _ _ _ Hrun) as (Hd & _ & Hs & _).
  destruct Hs as (Hpos & _ & Hcount & _); [by_evaluation|].
  split; [exact Hd|]. split; [exact Hpos | exact Hcount].
Defined.

Lemma rebuild_replaces_store_witness :
  exists chunks texts embeddings,
    chunk_documents 1 (cfg (checkup_env (Returned [unit_vector])))
      (get_records_with_metadata (checkup_env (Returned [unit_vector])))
      = Some chunks /\
    chunk_texts_of chunks = Ok texts /\
    generate_embeddings_batch (checkup_env (Returned [unit_vector])) texts
      = Returned embeddings /\
    index (snd rebuilt) = embeddings /\
    (embeddings <> [] ->
     Forall2 (fun chunk entry => metadata_entry_of chunk = Ok entry)
       chunks (metadata (snd rebuilt))) /\
    (embeddings = [] -> metadata (snd rebuilt) = []) /\
    files (snd rebuilt) = Saved (index (snd rebuilt)) (metadata (snd rebuilt)).
Proof.
  apply (rebuild_replaces_store 1 (checkup_env (Returned [unit_vector]))
           two_chunk_store rebuilt_report (snd rebuilt)); by_evaluation.
Defined.

Lemma rebuild_without_success_empties_files_witness :
  files (snd failed_rebuild) = Saved [] [] /\
  index (_load_index (files (snd failed_rebuild))) = [] /\
  metadata (_load_index (files (snd failed_rebuild))) = [] /\
  get_collection_count (_load_index (files (snd failed_rebuild))) = 0%nat.
Proof.
  apply (rebuild_without_success_empties_files 1
           (checkup_env (Raised model_not_loaded)) two_chunk_store
           (Raise model_not_loaded) (snd failed_rebuild));
    [by_evaluation | exact I].
Defined.

Lemma query_sources_are_stored_witness :
  NoDup (sources answered_result) /\
  (forall name, name ∈ sources answered_result ->
     exists entry, entry ∈ metadata two_chunk_store /\ source_file entry = name) /\
  (length (sources answered_result)
     <= Z.to_nat (TOP_K_CHUNKS
                    (cfg (example_env (Returned unit_vector)
                            (Returned (pystr_of "Paris."))))))%nat /\
  (has_records answered_result = false -> sources answered_result = []).
Proof.
  apply (query_sources_are_stored 1
           (example_env (Returned unit_vector) (Returned (pystr_of "Paris.")))
           example_question two_chunk_store answered_result two_chunk_store).
  by_evaluation.
Defined.

End IngestAndQueryExamples.

(** ** DocumentReader *)
Section DocumentReaderFacts.
Import DocumentReader.

Lemma lstrip_with_head p s :
  match lstrip_with p s with
  | [] => True
  | c :: _ => p c = false
  end.
Proof.
  induction s as [|c s IH]; simpl; [exact I|].
  destruct (p c) eqn:Hc; [exact IH | exact Hc].
Qed.

Lemma lstrip_with_app_keep p l c :
  p c = false -> lstrip_with p (l ++ [c]) = lstrip_with p l ++ [c].
Proof.
  intros Hc. induction l as [|x l IH]; simpl; [now rewrite Hc|].
  destruct (p x); [exact IH | reflexivity].
Qed.

Lemma rstrip_with_cons_keep p c s :
  p c = false -> rstrip_with p (c :: s) = c :: rstrip_with p s.
Proof.
  intros Hc. unfold rstrip_with. simpl.
  rewrite lstrip_with_app_keep by assumption.
  now rewrite rev_app_distr.
Qed.

Lemma lstrip_with_idempotent p s :
  lstrip_with p (lstrip_with p s) = lstrip_with p s.
Proof.
  pose proof (lstrip_with_head p s) as Hhead.
  destruct (lstrip_with p s) as [|c t]; [reflexivity|].
  simpl. now rewrite Hhead.
Qed.

(** What [strip] returns is empty or starts with a character that is not
    white space. *)
Lemma strip_head s :
  match strip s with
  | [] => True
  | c :: _ => isspace c = false
  end.
Proof.
  unfold strip. pose proof (lstrip_with_head isspace s) as Hhead.
  destruct (lstrip_with isspace s) as [|c t]; [exact I|].
  now rewrite rstrip_with_cons_keep.
Qed.

Lemma strip_idempotent s : strip (strip s) = strip s.
Proof.
  pose proof (strip_head s) as Hhead.
  unfold strip at 1.
  assert (Hl : lstrip_with isspace (strip s) = strip s).
  { destruct (strip s) as [|c t]; [reflexivity|]. simpl. now rewrite Hhead. }
  rewrite Hl. unfold strip, rstrip_with.
  now rewrite rev_involutive, lstrip_with_idempotent.
Qed.

(** A text that starts with a character that is not white space is not
    blank. *)
Lemma strip_keeps_head c s : isspace c = false -> strip (c :: s) <> [].
Proof.
  intros Hc. unfold strip. simpl. rewrite Hc.
  now rewrite rstrip_with_cons_keep.
Qed.

Lemma omap_cons {A B} (g : A -> option B) x l :
  omap g (x :: l) =
  match g x with Some y => y :: omap g l | None => omap g l end.
Proof. reflexivity. Qed.

Lemma record_of_spec strptime f doc :
  record_of strptime f = Some doc ->
  exists raw,
    file_read f = Returned raw /\ strip raw <> [] /\
    doc = {| doc_name := file_name f;
             doc_content := strip raw;
             doc_metadata :=
               <["file_type" := PStr (pystr_of "medical_record")]>
                 (<["date" := date_of strptime (file_stem f)]>
                    {["filename" := PStr (file_name f)]}) |}.
Proof.
  unfold record_of, str_eqb. destruct (file_read f) as [raw|err]; [|discriminate].
  case_bool_decide as Hblank; [discriminate|].
  intros [= <-]. now exists raw.
Qed.

(** X14. The two listings of the reader agree: [get_records_list] gives
    the names and contents of the records of
    [get_records_with_metadata], in the same order. Every record comes
    from a file of the directory that could be read; its content is the
    stripped text of the file, is not empty and has no white space at
    either end; its metadata has exactly the keys [filename] (the name of
    the file), [date] (a string or [None]) and [file_type]. *)
Theorem reader_records strptime records_dir :
  get_records_list records_dir =
    (fun doc => (doc_name doc, doc_content doc))
      <$> get_records_with_metadata strptime records_dir /\
  forall doc, doc ∈ get_records_with_metadata strptime records_dir ->
    (exists txt_files f raw,
       records_dir = Some txt_files /\ f ∈ txt_files /\
       file_read f = Returned raw /\
       doc_name doc = file_name f /\ doc_content doc = strip raw) /\
    doc_content doc <> [] /\
    strip (doc_content doc) = doc_content doc /\
    doc_metadata doc !! "filename" = Some (PStr (doc_name doc)) /\
    doc_metadata doc !! "file_type" = Some (PStr (pystr_of "medical_record")) /\
    (doc_metadata doc !! "date" = Some PNone \/
     exists date, doc_metadata doc !! "date" = Some (PStr date)) /\
    forall k : string,
      k <> "filename" -> k <> "date" -> k <> "file_type" ->
      doc_metadata doc !! k = None.
Proof.
  destruct records_dir as [txt_files|]; simpl;
    [|split; [reflexivity | intros doc Hin; inversion Hin]].
  split.
  - induction txt_files as [|f txt_files IH]; [reflexivity|].
    rewrite !omap_cons, IH. unfold record_of, str_eqb.
    destruct (file_read f) as [raw|err]; [|reflexivity].
    now case_bool_decide.
  - intros doc Hin. apply list_elem_of_omap in Hin as (f & Hf & Hdoc).
    apply record_of_spec in Hdoc as (raw & Hread & Hne & ->). simpl.
    split; [now exists txt_files, f, raw|].
    split; [assumption|]. split; [apply strip_idempotent|].
    split; [now rewrite !lookup_insert_ne, lookup_singleton_eq by discriminate|].
    split; [now rewrite lookup_insert_eq|].
    split.
    + rewrite lookup_insert_ne, lookup_insert_eq by discriminate.
      unfold date_of. destruct (1 <? _); [|now left].
      destruct (strptime _) as [date|]; [right; now exists date | now left].
    + intros k H1 H2 H3.
      now rewrite !lookup_insert_ne, lookup_singleton_ne by congruence.
Qed.

Lemma all_text_records txt_files :
  all_text txt_files = [] <-> get_records_list (Some txt_files) = [].
Proof.
  induction txt_files as [|f txt_files IH]; simpl; [tauto|].
  unfold str_eqb. destruct (file_read f) as [raw|err]; [|exact IH].
  case_bool_decide; [exact IH|]. split; discriminate.
Qed.

Lemma all_text_head txt_files :
  match all_text txt_files with
  | [] => True
  | part :: rest => exists name, part = header name /\ rest <> []
  end.
Proof.
  induction txt_files as [|f txt_files IH]; simpl; [exact I|].
  unfold str_eqb. destruct (file_read f) as [raw|err]; [|exact IH].
  case_bool_decide; [exact IH|]. now exists (file_name f).
Qed.

(** X15. The combined text of [read_all_records] is blank exactly when
    there is no record: the directory is missing, or none of its files can
    be read and holds more than white space. *)
Theorem read_all_records_blank records_dir :
  strip (read_all_records records_dir) = [] <->
  get_records_list records_dir = [].
Proof.
  destruct records_dir as [txt_files|]; [|simpl; tauto].
  rewrite <- all_text_records. unfold read_all_records.
  pose proof (all_text_head txt_files) as Hhead.
  destruct (all_text txt_files) as [|part rest]; [simpl; tauto|].
  destruct Hhead as (name & -> & Hrest).
  split; [|discriminate]. intros Hblank. exfalso. revert Hblank.
  destruct rest as [|content rest]; [contradiction|].
  change (join [10%N] (header name :: content :: rest))
    with (header name ++ [10%N] ++ join [10%N] (content :: rest)).
  unfold header. rewrite <- !app_assoc.
  change (strip ([10; 10]%N ++ pystr_of "=== " ++ ?t))
    with (strip (61%N :: ([61; 61; 32]%N ++ t))).
  apply strip_keeps_head. reflexivity.
Qed.

End DocumentReaderFacts.

(** ** The reader, the embedder and the service together *)
Section ReaderAndService.
Context `{Runtime}.

(** Documents without blank content give at least one chunk each. *)
Lemma chunk_documents_length fuel c documents chunks :
  Forall (fun doc => strip (doc_content doc) <> []) documents ->
  chunk_documents fuel c documents = Some chunks ->
  (length documents <= length chunks)%nat.
Proof.
  intros Hall. revert chunks.
  induction Hall as [|doc rest Hdoc Hrest IH]; intros chunks Hc.
  - injection Hc as <-. simpl. lia.
  - simpl in Hc.
    destruct (chunk_text fuel c (doc_content doc) _ _) as [mine|] eqn:Hmine;
      [|discriminate].
    destruct (chunk_documents fuel c rest) as [more|]; [|discriminate].
    injection Hc as <-. specialize (IH more eq_refl).
    rewrite length_app. simpl.
    destruct mine; [|simpl; lia].
    exfalso. apply Hdoc. now apply (chunk_text_non_blank _ _ _ _ _ _ Hmine).
Qed.

(** X16. Over the records of [DocumentReader] an ingestion that returns
    never reports [no_chunks]: it reports [no_documents] exactly when the
    reader finds no record, and otherwise at least one chunk for every
    document. *)
Theorem ingest_of_reader_records fuel e strptime records_dir rebuild st r st' :
  get_records_with_metadata e
    = DocumentReader.get_records_with_metadata strptime records_dir ->
  ingest_documents fuel e rebuild st = (Ok r, st') ->
  status r <> no_chunks /\
  (status r = no_documents <-> DocumentReader.get_records_list records_dir = []) /\
  (documents_processed r <= chunks_created r)%nat.
Proof.
  intros Hrecords Hing.
  destruct (reader_records strptime records_dir) as [Hlist Hdocs].
  assert (Hall : Forall (fun doc => strip (doc_content doc) <> [])
                   (get_records_with_metadata e)).
  { rewrite Hrecords. apply Forall_forall. intros doc Hin.
    destruct (Hdocs doc Hin) as (_ & Hne & -> & _). exact Hne. }
  assert (Hempty : DocumentReader.get_records_list records_dir = [] <->
                   get_records_with_metadata e = []).
  { rewrite Hlist, Hrecords. split; [apply fmap_nil_inv | now intros ->]. }
  destruct (ingest_documents_ok _ _ _ _ _ _ Hing)
    as [(Hs & Hrec & _ & Hd & Hc & _)
       | [(Hs & Hrec & Hch & _)
         | (Hs & Hrec & chunks & texts & embeddings
            & Hch & Hne & _ & _ & _ & Hd & Hc & _)]].
  - rewrite Hs, Hd, Hc. split; [discriminate|]. split; [tauto | lia].
  - exfalso. pose proof (chunk_documents_length _ _ _ _ Hall Hch) as Hlen.
    destruct (get_records_with_metadata e); [contradiction | simpl in Hlen; lia].
  - rewrite Hs, Hd, Hc. split; [discriminate|]. split.
    + split; [discriminate | intros Hnone; apply Hempty in Hnone; contradiction].
    + now apply (chunk_documents_length fuel (cfg e)).
Qed.

(** X17. A blank question is not sent to the embedding model: whatever
    the model does, [generate_embedding] gives the zero vector of 384
    components, and on a store that holds chunks [query] returns a result
    flagged as grounded, citing the chunks nearest to the zero vector. *)
Theorem blank_question_is_grounded fuel e m question st :
  generate_embedding e question
    = EmbeddingService.generate_embedding m question ->
  strip question = [] ->
  consistent st -> get_collection_count st <> 0%nat ->
  1 <= TOP_K_CHUNKS (cfg e) ->
  EmbeddingService.generate_embedding m question = Returned zero_vector /\
  exists hits r,
    search_similar (cfg e) zero_vector None st = Ok hits /\
    hits <> [] /\
    query fuel e question st = (Ok r, st) /\
    has_records r = true /\
    sources r = first_seen (List.map source_of hits).
Proof.
  intros Hemb Hblank Hcons Hcount Htop.
  assert (Hzero : EmbeddingService.generate_embedding m question
                  = Returned zero_vector).
  { unfold EmbeddingService.generate_embedding, str_eqb.
    now rewrite (bool_decide_eq_true_2 (strip question = []) Hblank), orb_true_r. }
  split; [exact Hzero|]. rewrite Hzero in Hemb.
  destruct (search_similar_hits (cfg e) zero_vector None st Hcons eq_refl Htop)
    as (Hs & _ & Hlen).
  cbv zeta in Hs, Hlen.
  set (found := take _ _) in Hs, Hlen.
  destruct (answer_question_returns e question st zero_vector
              (format_results (metadata st) found) Hemb Hs)
    as (r & Hr & Hhas & Hsrc & _).
  exists (format_results (metadata st) found), r.
  rewrite query_non_empty by assumption.
  rewrite answer_prompt_sources in Hsrc.
  assert (Hne : format_results (metadata st) found <> []).
  { pose proof (query_grounded_on_non_empty_index fuel e question st r st) as Hg.
    rewrite query_non_empty in Hg by assumption.
    specialize (Hg Hcons Hcount Htop Hr). rewrite Hhas in Hg.
    intros Hnil. rewrite Hnil in Hg. discriminate. }
  repeat split; try assumption.
  rewrite Hhas. destruct (format_results (metadata st) found);
    [contradiction | reflexivity].
Qed.

End ReaderAndService.

(** ** main.py: the service across restarts *)
Section Restarts.
Context `{Runtime}.
Import Main.

Lemma append_metadata_of_entries chunks entries : forall st,
  Forall2 (fun chunk entry => metadata_entry_of chunk = Ok entry) chunks entries ->
  append_metadata chunks st =
    (Ok tt, {| index := index st; metadata := metadata st ++ entries;
               files := files st |}).
Proof.
  intros st Hall. revert st.
  induction Hall as [|chunk entry chunks entries Hentry Hall IH]; intros st; simpl.
  - rewrite app_nil_r. now destruct st.
  - rewrite Hentry, IH. simpl. now rewrite <- app_assoc.
Qed.

(** Whether [add_documents] returns does not depend on the store. *)
Lemma add_documents_any_store chunks embeddings st st' :
  chunks <> [] -> embeddings <> [] ->
  add_documents chunks embeddings st = (Ok tt, st') ->
  forall st2, exists st2',
    add_documents chunks embeddings st2 = (Ok tt, st2') /\
    index st2' = index st2 ++ embeddings.
Proof.
  intros Hc He Hadd st2.
  destruct (add_documents_ok _ _ _ _ Hadd)
    as [[[?|?] _] | (_ & _ & Hlen & _ & _ & entries & _ & Hall)];
    [contradiction | contradiction |].
  revert Hadd. unfold add_documents.
  rewrite !bool_decide_eq_false_2 by assumption. simpl.
  rewrite Hlen, Nat.eqb_refl. simpl.
  destruct (array_width embeddings) as [width| |]; try discriminate.
  destruct (negb (Nat.eqb _ _)); [discriminate|]. intros _.
  rewrite (append_metadata_of_entries chunks entries) by assumption.
  eexists. split; reflexivity.
Qed.

(** X18. The first call of [get_rag_service] in a process ingests the
    documents into the index loaded from the files, without clearing it.
    So when a first start has stored the chunks of the corpus, the first
    call after a restart stores them a second time: the count grows by
    the number of chunks at every restart. *)
Theorem restart_ingests_again fuel e GEMINI_API_KEY vector_db r st1 :
  configured GEMINI_API_KEY = true ->
  ingest_documents fuel e false (_load_index vector_db) = (Ok r, st1) ->
  status r = success ->
  held (Serving st1) <> held (NotStarted vector_db) ->
  get_rag_service fuel e GEMINI_API_KEY (NotStarted vector_db)
    = (Service st1, Serving st1) /\
  held (Serving st1) = (held (NotStarted vector_db) + chunks_created r)%nat /\
  exists st2,
    get_rag_service fuel e GEMINI_API_KEY (restart (Serving st1))
      = (Service st2, Serving st2) /\
    index st1 `prefix_of` index st2 /\
    held (Serving st2) = (held (Serving st1) + chunks_created r)%nat.
Proof.
  intros Hkey Hing Hs Hgrew. unfold held in *.
  split; [unfold get_rag_service; now rewrite Hkey, Hing|].
  destruct (ingest_documents_ok _ _ _ _ _ _ Hing)
    as [(Hs' & _) | [(Hs' & _)
         | (_ & Hrec & chunks & texts & embeddings
            & Hch & Hne & Htexts & Hemb & Hadd & _ & Hc & _)]]; try congruence.
  destruct (add_documents_ok _ _ _ _ Hadd)
    as [[_ ->] | (_ & He & Hlen & Hidx & Hfiles & _)]; [contradiction|].
  split.
  { unfold get_collection_count, ntotal. rewrite Hidx, length_app. lia. }
  destruct (add_documents_any_store _ _ _ _ Hne He Hadd (_load_index (files st1)))
    as (st2 & Hadd2 & Hidx2).
  exists st2.
  assert (Hing2 : exists r2,
            ingest_documents fuel e false (_load_index (files st1)) = (Ok r2, st2)).
  { unfold ingest_documents, bind, ret, lift. cbv zeta.
    rewrite (bool_decide_eq_false_2 _ Hrec), Hch.
    rewrite (bool_decide_eq_false_2 _ Hne), Htexts, Hemb. simpl.
    rewrite Hadd2. eexists. reflexivity. }
  destruct Hing2 as [r2 Hing2].
  assert (Hloaded : index (_load_index (files st1)) = index st1)
    by now rewrite Hfiles.
  split; [simpl; unfold get_rag_service; now rewrite Hkey, Hing2|].
  rewrite Hloaded in Hidx2. split; [now exists embeddings|].
  unfold get_collection_count, ntotal. rewrite Hidx2, length_app. lia.
Qed.

End Restarts.

Section ReaderAndServiceExamples.

Lemma ingest_of_reader_records_witness :
  status first_report <> no_chunks /\
  (documents_processed first_report <= chunks_created first_report)%nat.
Proof.
  destruct (ingest_of_reader_records 12 reader_env example_strptime
              notes_directory false (_load_index NoFiles) first_report
              (snd first_start)) as (Hstatus & _ & Hcount).
  - reflexivity.
  - by_evaluation.
  - split; assumption.
Defined.

Lemma blank_question_is_grounded_witness :
  EmbeddingService.generate_embedding missing_model [32; 32]%N
    = Returned zero_vector.
Proof.
  destruct (blank_question_is_grounded 1 reader_env missing_model [32; 32]%N
              two_chunk_store) as [Hzero _].
  - reflexivity.
  - by_evaluation.
  - unfold consistent. by_evaluation.
  - vm_compute. discriminate.
  - vm_compute. discriminate.
  - exact Hzero.
Defined.

Lemma restart_ingests_again_witness :
  Main.held (Main.Serving (snd first_start))
    = (Main.held (Main.NotStarted NoFiles) + chunks_created first_report)%nat.
Proof.
  destruct (restart_ingests_again 12 reader_env (pystr_of "key") NoFiles
              first_report (snd first_start)) as (_ & Hheld & _).
  - by_evaluation.
  - by_evaluation.
  - by_evaluation.
  - vm_compute. discriminate.
  - exact Hheld.
Defined.

End ReaderAndServiceExamples.

(** ** RAGService.get_recommendations *)
Section Recommendations.
Context `{Runtime}.

(** [ "" in s ] *)
Lemma contains_empty s : contains [] s = true.
Proof.
  unfold contains. cbn [length Nat.sub Nat.leb andb].
  rewrite Nat.sub_0_r. cbn [seq existsb].
  unfold occurs_at, str_eqb. reflexivity.
Qed.

Lemma recommend_prompt_sources e question context_from_records similar_chunks :
  snd (recommend_prompt e question context_from_records similar_chunks) =
  first_seen (List.map source_of similar_chunks).
Proof.
  unfold recommend_prompt.
  destruct similar_chunks as [|chunk rest].
  { rewrite bool_decide_eq_true_2 by reflexivity. reflexivity. }
  rewrite bool_decide_eq_false_2 by discriminate.
  unfold collect.
  pose proof (collect_sources (chunk :: rest) [] []) as Hsrc.
  rewrite filter_everything in Hsrc by (intros x; apply not_elem_of_nil).
  destruct (fold_left collect_chunk (chunk :: rest) ([], [])) as [parts srcs].
  exact Hsrc.
Qed.

Lemma get_recommendations_inv e question context_from_records st r st' :
  get_recommendations e question context_from_records st = (Ok r, st') ->
  exists embedding hits,
    generate_embedding e question = Returned embedding /\
    search_similar (cfg e) embedding None st = Ok hits /\
    st' = st /\
    rec_sources r = first_seen (List.map source_of hits) /\
    match _call_gemini_api e
            (fst (recommend_prompt e question context_from_records hits)) with
    | Returned full_response =>
        rec_recommendations r = parse_recommendations full_response
    | Raised err =>
        rec_recommendations r =
          [pystr_of "Error generating recommendations: " ++ exn_message err]
    end.
Proof.
  unfold get_recommendations, bind, lift, try_except, ret.
  destruct (generate_embedding e question) as [emb|err] eqn:Hg; [|discriminate].
  simpl.
  destruct (search_similar (cfg e) emb None st) as [hits| |] eqn:Hs;
    try discriminate.
  pose proof (recommend_prompt_sources e question context_from_records hits)
    as Hsrc.
  destruct (recommend_prompt e question context_from_records hits)
    as [prompt_ sources_] eqn:Hp. simpl in *.
  destruct (_call_gemini_api e prompt_) as [full_response|err] eqn:Hgen; simpl;
    intros [= <- <-]; exists emb, hits; rewrite Hp; simpl; rewrite Hgen;
    repeat split; assumption || reflexivity.
Qed.

(** X19. Whenever [get_recommendations] returns, the store is as
    before (no ingestion takes place, also on an empty index), the list of
    recommendations is not empty and holds no empty string, no source is
    listed twice, and every source is the source file of a metadata record
    of the store. *)
Theorem get_recommendations_result e question context_from_records st r st' :
  get_recommendations e question context_from_records st = (Ok r, st') ->
  st' = st /\
  rec_recommendations r <> [] /\
  (forall rec, rec ∈ rec_recommendations r -> rec <> []) /\
  NoDup (rec_sources r) /\
  (forall name, name ∈ rec_sources r ->
     exists entry, entry ∈ metadata st /\ source_file entry = name) /\
  (get_collection_count st = 0%nat -> rec_sources r = []).
Proof.
  intros Hrec.
  destruct (get_recommendations_inv _ _ _ _ _ _ Hrec)
    as (emb & hits & _ & Hs & -> & Hsrc & Hgen).
  destruct (search_similar_stored _ _ _ _ _ Hs) as [_ Hstored].
  split; [reflexivity|].
  assert (Hrecs : rec_recommendations r <> [] /\
                  forall rec, rec ∈ rec_recommendations r -> rec <> []).
  { destruct (_call_gemini_api e _) as [full_response|err]; rewrite Hgen.
    - unfold parse_recommendations. rewrite fold_parse_line. simpl.
      case_bool_decide as Hkept.
      + split; [discriminate|].
        intros rec ->%list_elem_of_singleton. discriminate.
      + split; [assumption|]. intros rec Hin.
        apply list_elem_of_omap in Hin as (line & _ & Hline).
        unfold recommendation_of_line in Hline.
        destruct (starts_with_marker _); [|discriminate].
        destruct (10 <? len _) eqn:Hlen; [|discriminate].
        destruct (negb _); [|discriminate]. injection Hline as <-.
        apply Z.ltb_lt in Hlen. intros Hnil. rewrite Hnil in Hlen.
        unfold len in Hlen. simpl in Hlen. lia.
    - split; [discriminate|].
      intros rec ->%list_elem_of_singleton. discriminate. }
  split; [apply Hrecs|]. split; [apply Hrecs|].
  rewrite Hsrc. split; [apply first_seen_NoDup|]. split.
  - intros name Hin. apply (proj1 (first_seen_elem _ _)) in Hin.
    rewrite map_fmap in Hin.
    apply list_elem_of_fmap in Hin as (h & Hname & Hh).
    destruct (Hstored h Hh) as (entry & He & Hentry).
    exists entry. split; [eapply list_elem_of_lookup_2; exact He|]. congruence.
  - intros Hzero. unfold search_similar in Hs.
    unfold get_collection_count in Hzero. rewrite Hzero in Hs. simpl in Hs.
    now injection Hs as <-.
Qed.

(** X20. When no chunk is retrieved, the records never reach the
    generator: with [context_from_records] and a corpus that is not empty
    the prompt is the one built from records, with an empty records
    section; the branch that would send all the records alone cannot be
    taken, because the empty context is found in any text. In particular,
    on an empty index [get_recommendations] returns what the generator
    makes of that prompt, and cites no source. *)
Theorem recommendations_without_retrieval e question context_from_records :
  fst (recommend_prompt e question context_from_records []) =
    (if context_from_records && negb (str_eqb (read_all_records e) [])
     then RecommendFromRecords question []
     else RecommendGeneral question) /\
  forall st embedding,
    get_collection_count st = 0%nat ->
    generate_embedding e question = Returned embedding ->
    exists r,
      get_recommendations e question context_from_records st = (Ok r, st) /\
      rec_sources r = [] /\
      match _call_gemini_api e
              (if context_from_records && negb (str_eqb (read_all_records e) [])
               then RecommendFromRecords question []
               else RecommendGeneral question) with
      | Returned full_response =>
          rec_recommendations r = parse_recommendations full_response
      | Raised err =>
          rec_recommendations r =
            [pystr_of "Error generating recommendations: " ++ exn_message err]
      end.
Proof.
  assert (Hprompt : fst (recommend_prompt e question context_from_records []) =
    (if context_from_records && negb (str_eqb (read_all_records e) [])
     then RecommendFromRecords question []
     else RecommendGeneral question)).
  { unfold recommend_prompt. rewrite !bool_decide_eq_true_2 by reflexivity.
    cbn [fst]. rewrite contains_empty.
    replace (str_eqb [] []) with true by reflexivity. simpl.
    now rewrite andb_false_r. }
  split; [exact Hprompt|]. intros st embedding Hzero Hemb.
  assert (Hs : search_similar (cfg e) embedding None st = Ok []).
  { unfold search_similar. unfold get_collection_count in Hzero.
    now rewrite Hzero. }
  destruct (recommendations_return e question context_from_records st
              embedding [] Hemb Hs) as (r & Hr & Hgen).
  exists r. split; [exact Hr|].
  destruct (get_recommendations_inv _ _ _ _ _ _ Hr)
    as (emb' & hits & Hemb' & Hs' & _ & Hsrc & _).
  rewrite Hemb in Hemb'. injection Hemb' as <-.
  rewrite Hs in Hs'. injection Hs' as <-.
  split; [exact Hsrc|]. now rewrite Hprompt in Hgen.
Qed.

End Recommendations.

Section RecommendationsExamples.

Lemma get_recommendations_result_witness :
  snd recommended = two_chunk_store /\
  rec_recommendations recommended_result <> [] /\
  NoDup (rec_sources recommended_result).
Proof.
  destruct (get_recommendations_result
              (example_env (Returned unit_vector)
                 (Returned (pystr_of "- Drink more water every day")))
              example_question true two_chunk_store recommended_result
              (snd recommended)) as (Hst & Hne & _ & Hnodup & _).
  - by_evaluation.
  - split; [exact Hst|]. split; [exact Hne | exact Hnodup].
Defined.

End RecommendationsExamples.

(** ** Storing and searching *)
Section RoundTrip.

Lemma square_nonneg (q : Q) : (0 <= q * q)%Q.
Proof. destruct q as [n d]. unfold Qle, Qmult. simpl. nia. Qed.

Lemma l2_sqr_nonneg a b : (0 <= l2_sqr a b)%Q.
Proof.
  unfold l2_sqr. revert b.
  induction a as [|x a IH]; intros [|y b]; simpl; try apply Qle_refl.
  apply (Qle_trans _ (0 + 0)); [discriminate|].
  apply Qplus_le_compat; [apply square_nonneg | apply IH].
Qed.

Lemma l2_sqr_self a : (l2_sqr a a == 0)%Q.
Proof.
  unfold l2_sqr. induction a as [|x a IH]; simpl; [reflexivity|].
  rewrite IH. ring.
Qed.

(** X21. A search with a vector that is stored finds it: on a store
    with one metadata record per vector, a search for at least one result
    with a stored vector of 384 components returns a first hit at distance
    0, whose own vector is at distance 0 from the query. *)
Theorem stored_vector_is_found_first c top_k st i v :
  consistent st -> index st !! i = Some v ->
  length v = embedding_dim -> 1 <= requested c top_k ->
  exists hits h row,
    search_similar c v top_k st = Ok hits /\
    hits !! 0%nat = Some h /\
    index st !! hit_id h = Some row /\
    (hit_distance h == 0)%Q /\
    (l2_sqr v row == 0)%Q.
Proof.
  intros Hcons Hi Hv Hk.
  destruct (search_similar_hits c v top_k st Hcons Hv Hk) as (Hs & _ & Hlen).
  cbv zeta in Hs, Hlen. rewrite Hs. clear Hs Hlen.
  assert (Hn : (1 <= ntotal st)%nat).
  { unfold ntotal. pose proof (lookup_lt_Some _ _ _ Hi). unfold vec in *. lia. }
  pose proof (rank_sorted (imap (fun i row => (l2_sqr v row, i)) (index st)))
    as Hsorted.
  assert (Hin : (l2_sqr v v, i)
                ∈ rank (imap (fun i row => (l2_sqr v row, i)) (index st))).
  { rewrite rank_perm. apply elem_of_lookup_imap. eauto. }
  assert (Hrows : forall d j,
            (d, j) ∈ rank (imap (fun i row => (l2_sqr v row, i)) (index st)) ->
            exists row, index st !! j = Some row /\ d = l2_sqr v row)
    by (intros d j; apply ranked_rows).
  destruct (rank (imap (fun i row => (l2_sqr v row, i)) (index st)))
    as [|[d0 i0] rest]; [inversion Hin|].
  destruct (Hrows d0 i0) as (row & Hrow & Hd0); [left|].
  assert (Hle : (d0 <= l2_sqr v v)%Q).
  { apply elem_of_cons in Hin as [Heq|Hin].
    - injection Heq as <- _. apply Qle_refl.
    - apply StronglySorted_inv in Hsorted as [_ Hall].
      rewrite Forall_forall in Hall. exact (Hall _ Hin). }
  assert (Hzero : (d0 == 0)%Q).
  { apply Qle_antisym; [now rewrite <- (l2_sqr_self v)|].
    rewrite Hd0. apply l2_sqr_nonneg. }
  destruct (Z.to_nat (Z.min (requested c top_k) (Z.of_nat (ntotal st))))
    as [|k] eqn:Hk'; [lia|].
  simpl. destruct (metadata st !! i0) as [entry|] eqn:Hentry.
  - eexists _, _, row. split; [reflexivity|]. simpl.
    split; [reflexivity|]. split; [exact Hrow|].
    split; [exact Hzero | now rewrite <- Hd0].
  - exfalso. apply lookup_ge_None in Hentry. apply lookup_lt_Some in Hrow.
    unfold consistent in Hcons. unfold vec in *. lia.
Qed.

End RoundTrip.

Section RoundTripExamples.

Lemma stored_vector_is_found_first_witness :
  exists hits h row,
    search_similar default_config unit_vector None two_chunk_store = Ok hits /\
    hits !! 0%nat = Some h /\
    index two_chunk_store !! hit_id h = Some row /\
    (hit_distance h == 0)%Q /\
    (l2_sqr unit_vector row == 0)%Q.
Proof.
  apply (stored_vector_is_found_first default_config None two_chunk_store
           1%nat unit_vector).
  - unfold consistent. by_evaluation.
  - by_evaluation.
  - by_evaluation.
  - vm_compute. discriminate.
Defined.

End RoundTripExamples.

(** ** RAGService.get_summary over the reader *)
Section SummaryOfDirectory.
Context `{Runtime}.

(** X22. Over a records directory in which the reader finds no record,
    [get_summary] returns the fixed sentence "No medical records found."
    without calling the generator and without changing the store, also
    when the index still holds chunks of records that are gone. *)
Theorem summary_of_empty_directory fuel e strptime records_dir st :
  get_records_with_metadata e
    = DocumentReader.get_records_with_metadata strptime records_dir ->
  read_all_records e = DocumentReader.read_all_records records_dir ->
  DocumentReader.get_records_list records_dir = [] ->
  get_summary fuel e st = (Ok no_records_found, st).
Proof.
  intros Hrecords Hall Hnone.
  assert (Hblank : strip (read_all_records e) = [])
    by (rewrite Hall; now apply read_all_records_blank).
  assert (Hdocs : get_records_with_metadata e = []).
  { destruct (reader_records strptime records_dir) as [Hlist _].
    rewrite Hnone in Hlist. symmetry in Hlist.
    apply fmap_nil_inv in Hlist. now rewrite Hrecords. }
  unfold get_summary, bind, ret. unfold str_eqb.
  rewrite (bool_decide_eq_true_2 _ Hblank).
  destruct (Nat.eqb (get_collection_count st) 0); [|reflexivity].
  unfold ingest_documents, bind, ret. cbv zeta.
  now rewrite (bool_decide_eq_true_2 _ Hdocs).
Qed.

End SummaryOfDirectory.

Section SummaryOfDirectoryExamples.

Lemma summary_of_empty_directory_witness :
  get_summary 1 unread_env two_chunk_store = (Ok no_records_found, two_chunk_store).
Proof.
  apply (summary_of_empty_directory 1 unread_env example_strptime
           unread_directory two_chunk_store); reflexivity.
Defined.

End SummaryOfDirectoryExamples.

(** ** Config._load_properties *)
Section LoadProperties.
Import Config.

(** A string without white space at its ends: its first and its last
    character are not white space. *)
Lemma stripped_ends s :
  strip s = s ->
  match s with [] => True | c :: _ => isspace c = false end /\
  match rev s with [] => True | c :: _ => isspace c = false end.
Proof.
  intros Hs. split.
  - rewrite <- Hs. apply strip_head.
  - rewrite <- Hs. unfold strip, rstrip_with. rewrite rev_involutive.
    apply lstrip_with_head.
Qed.

Lemma strip_assignment key value :
  strip key = key -> strip value = value ->
  strip (key ++ [61%N] ++ value ++ [10%N]) = key ++ [61%N] ++ value.
Proof.
  intros [Hk _]%stripped_ends [_ Hv]%stripped_ends.
  assert (Hl : lstrip_with isspace (key ++ [61%N] ++ value ++ [10%N])
               = key ++ [61%N] ++ value ++ [10%N]).
  { destruct key as [|c key]; simpl; [reflexivity | now rewrite Hk]. }
  unfold strip. rewrite Hl. unfold rstrip_with.
  replace (rev (key ++ [61%N] ++ value ++ [10%N]))
    with (10%N :: (rev value ++ 61%N :: rev key))
    by (rewrite !rev_app_distr; simpl; now rewrite <- !app_assoc).
  cbn [lstrip_with]. replace (isspace 10%N) with true by reflexivity.
  assert (Hr : lstrip_with isspace (rev value ++ 61%N :: rev key)
               = rev value ++ 61%N :: rev key).
  { destruct (rev value) as [|c rest]; simpl; [reflexivity | now rewrite Hv]. }
  rewrite Hr, rev_app_distr. simpl.
  now rewrite !rev_involutive, <- app_assoc.
Qed.

Lemma split_once_first key value :
  61%N ∉ key -> split_once 61%N (key ++ [61%N] ++ value) = Some (key, value).
Proof.
  induction key as [|c key IH]; intros Hkey; [reflexivity|].
  apply not_elem_of_cons in Hkey as [Hc Hkey]. simpl.
  destruct (N.eqb_spec c 61%N) as [->|_]; [contradiction|].
  simpl in IH. now rewrite IH.
Qed.

Lemma startswith_assignment key value :
  startswith (key ++ [61%N] ++ value) [35%N] = startswith key [35%N].
Proof. destruct key; reflexivity. Qed.

(** X23. A line [key=value] at the end of the properties file sets
    [key] to [value] and leaves every other key as the earlier lines set
    it, replacing an earlier value of [key]. This holds for a key and a
    value without white space at their ends, a key that contains no ['=']
    and does not start with ['#'], and a value that is not between
    quotes. *)
Theorem load_properties_assignment lines key value :
  strip key = key -> strip value = value ->
  61%N ∉ key -> startswith key [35%N] = false -> quoted value = false ->
  _load_properties (lines ++ [key ++ [61%N] ++ value ++ [10%N]])
    = <[key := value]> (_load_properties lines) /\
  _load_properties (lines ++ [key ++ [61%N] ++ value ++ [10%N]]) !! key
    = Some value /\
  forall other, other <> key ->
    _load_properties (lines ++ [key ++ [61%N] ++ value ++ [10%N]]) !! other
      = _load_properties lines !! other.
Proof.
  intros Hk Hv Hsep Hcomment Hquoted.
  assert (Hload : _load_properties (lines ++ [key ++ [61%N] ++ value ++ [10%N]])
                  = <[key := value]> (_load_properties lines)).
  { unfold _load_properties. rewrite fold_left_app. cbn [fold_left].
    unfold load_line. rewrite strip_assignment by assumption.
    rewrite startswith_assignment, Hcomment.
    replace (str_eqb (key ++ [61%N] ++ value) []) with false
      by (symmetry; apply bool_decide_eq_false_2; now destruct key).
    cbn [orb]. rewrite split_once_first by assumption.
    now rewrite Hk, Hv, Hquoted. }
  rewrite Hload. split; [reflexivity|]. split.
  - apply lookup_insert_eq.
  - intros other Hother. now apply lookup_insert_ne.
Qed.

End LoadProperties.

Section LoadPropertiesExamples.

Lemma load_properties_assignment_witness :
  Config._load_properties
    (example_properties
       ++ [pystr_of "CHUNK_SIZE" ++ [61%N] ++ pystr_of "800" ++ [10%N]])
    !! pystr_of "CHUNK_SIZE" = Some (pystr_of "800").
Proof.
  destruct (load_properties_assignment example_properties
              (pystr_of "CHUNK_SIZE") (pystr_of "800")) as (_ & Hkey & _).
  - reflexivity.
  - reflexivity.
  - apply (bool_decide_unpack _). vm_compute. exact I.
  - reflexivity.
  - reflexivity.
  - exact Hkey.
Defined.

End LoadPropertiesExamples.
